(** * idea-notes: the ideas store and the inbox projection

    A shallow embedding of

    - the ideas context provider ([IdeasProvider]: hydration, autosave and
      the six collection operations), and [addIdea] of its earlier revision,
    - the derived list of the inbox screen (the [visibleIdeas] memo of
      [app/(tabs)/explore.tsx] and its pinned/regular split) and the
      placement of its dropdown menus,
    - the submit guard of the capture screen and the lookup, dirty check and
      save of the note screen,

    followed by the properties the specification states about them.

    The store is TypeScript, but nothing checks the declared [Idea] type at
    run time: hydration takes whatever [JSON.parse] returns and [updateIdea]
    spreads whatever record it is handed.  Ideas are therefore modelled as
    what they are when the code runs, JavaScript objects, i.e. finite maps
    from property names to values. *)

From stdpp Require Import gmap strings list fin_maps pretty.
From Stdlib Require Import ZArith Lia Ascii Permutation Sorted.

Set Warnings "-register-all".
Open Scope string_scope.

(** ** The fragment of JavaScript the store uses *)

Module JS.

(** Values.  Numbers are the integers ([Date.now()] timestamps, exact as
    doubles up to 2^53); fractions, [NaN] and the infinities are outside the
    model.  A string is a sequence of UTF-16 code units below 256.  The order
    of the keys of an object is not represented; no modelled operation except
    the serialised text depends on it. *)
Inductive value : Type :=
| VUndef
| VNull
| VBool (b : bool)
| VNum (z : Z)
| VStr (s : string)
| VArr (l : list value)
| VObj (o : gmap string value).

Abbreviation obj := (gmap string value).

(** [o.k] for a property no prototype defines: the own property, or
    [undefined]. *)
Definition get (o : obj) (k : string) : value := default VUndef (o !! k).

(** [v ?? d] *)
Definition nullish (v d : value) : value :=
  match v with
  | VUndef | VNull => d
  | _ => v
  end.

(** ToBoolean *)
Definition to_boolean (v : value) : bool :=
  match v with
  | VUndef | VNull => false
  | VBool b => b
  | VNum z => negb (z =? 0)%Z
  | VStr s => negb (bool_decide (s = ""))
  | VArr _ | VObj _ => true
  end.

(** [!v] *)
Definition js_not (v : value) : bool := negb (to_boolean v).

(** [v === s] for a string [s] *)
Definition strict_eq_str (v : value) (s : string) : bool :=
  match v with
  | VStr t => bool_decide (t = s)
  | _ => false
  end.

(** [v === true] *)
Definition strict_eq_true (v : value) : bool :=
  match v with
  | VBool true => true
  | _ => false
  end.

(** [{...base, ...src}]: the properties of [src] win. *)
Definition spread (base src : obj) : obj := src ∪ base.

(** The own enumerable properties an object spread copies out of any value:
    those of an object, the indexed elements of an array, the indexed
    characters of a string, none for the other primitives. *)
Definition indexed (l : list value) : obj :=
  list_to_map (imap (λ i v, (pretty i, v)) l).

Fixpoint chars (s : string) : list value :=
  match s with
  | EmptyString => []
  | String c r => VStr (String c EmptyString) :: chars r
  end.

Definition own_props (v : value) : obj :=
  match v with
  | VObj o => o
  | VArr l => indexed l
  | VStr s => indexed (chars s)
  | VUndef | VNull | VBool _ | VNum _ => ∅
  end.

(** [v.k] for a key that is neither an index, [length] nor inherited:
    a TypeError ([None]) on [null] and [undefined]. *)
Definition read (v : value) (k : string) : option value :=
  match v with
  | VUndef | VNull => None
  | _ => Some (get (own_props v) k)
  end.

(** *** Strings *)

Definition code (c : ascii) : N := N_of_ascii c.

(** [\s] of a regular expression and the characters [trim] strips, among the
    code units below 256: TAB, LF, VT, FF, CR, SP, NBSP. *)
Definition is_ws (c : ascii) : bool :=
  let n := code c in
  ((9 <=? n) && (n <=? 13) || (n =? 32) || (n =? 160))%N.

(** [toLowerCase], on code units below 256: A-Z and the accented capitals
    U+00C0..U+00DE except the multiplication sign. *)
Definition lower_char (c : ascii) : ascii :=
  let n := code c in
  if ((65 <=? n) && (n <=? 90) || (192 <=? n) && (n <=? 222) && negb (n =? 215))%N
  then ascii_of_N (n + 32)
  else c.

Fixpoint toLowerCase (s : string) : string :=
  match s with
  | EmptyString => EmptyString
  | String c r => String (lower_char c) (toLowerCase r)
  end.

Fixpoint trimStart (s : string) : string :=
  match s with
  | EmptyString => EmptyString
  | String c r => if is_ws c then trimStart r else s
  end.

Fixpoint trimEnd (s : string) : string :=
  match s with
  | EmptyString => EmptyString
  | String c r =>
      match trimEnd r with
      | EmptyString => if is_ws c then EmptyString else String c EmptyString
      | r' => String c r'
      end
  end.

Definition trim (s : string) : string := trimEnd (trimStart s).

(** [s.replace(/\s+/g, ' ')]: [in_run] says that the previous character was
    whitespace, so that the current run already produced its space. *)
Fixpoint collapse (in_run : bool) (s : string) : string :=
  match s with
  | EmptyString => EmptyString
  | String c r =>
      if is_ws c
      then (if in_run then collapse true r else String " " (collapse true r))
      else String c (collapse false r)
  end.

Definition replace_ws (s : string) : string := collapse false s.

Fixpoint starts_with (q s : string) : bool :=
  match q, s with
  | EmptyString, _ => true
  | String a q', String b s' => bool_decide (a = b) && starts_with q' s'
  | String _ _, EmptyString => false
  end.

(** [s.includes(q)] *)
Fixpoint includes (s q : string) : bool :=
  starts_with q s ||
  match s with
  | EmptyString => false
  | String _ r => includes r q
  end.

(** Empty or whitespace only. *)
Fixpoint all_ws (s : string) : bool :=
  match s with
  | EmptyString => true
  | String c r => is_ws c && all_ws r
  end.

(** Every whitespace character is a space and stands alone; [prev_ws] says
    that the character before the string was whitespace. *)
Fixpoint single_spaced (prev_ws : bool) (s : string) : bool :=
  match s with
  | EmptyString => true
  | String c r =>
      if is_ws c
      then bool_decide (c = " "%char) && negb prev_ws && single_spaced true r
      else single_spaced false r
  end.

(** The characters that are not whitespace, in order. *)
Fixpoint letters (s : string) : string :=
  match s with
  | EmptyString => EmptyString
  | String c r => if is_ws c then letters r else String c (letters r)
  end.

(** [q] occurs in [s] as a run of consecutive characters. *)
Definition is_substring (q s : string) : Prop :=
  ∃ pre post, s = pre +:+ q +:+ post.

(** *** Outcomes of code that can throw *)

Inductive outcome (A : Type) : Type :=
| Ok (a : A)
| Throws
| Unspecified.
Arguments Ok {A} a.
Arguments Throws {A}.
Arguments Unspecified {A}.

Definition bind {A B} (x : outcome A) (f : A → outcome B) : outcome B :=
  match x with
  | Ok a => f a
  | Throws => Throws
  | Unspecified => Unspecified
  end.

(** [l.filter(cb)] for a callback that can throw: elements are visited in
    order and the first exception ends the call. *)
Fixpoint filter_with {A} (cb : A → outcome bool) (l : list A) : outcome (list A) :=
  match l with
  | [] => Ok []
  | x :: r =>
      bind (cb x) (λ keep,
      bind (filter_with cb r) (λ r', Ok (if keep then x :: r' else r')))
  end.

(** [l.sort(cmp)].  ECMAScript 2019 requires the sort to be stable, and for a
    consistent comparator that fixes the result: an element goes before the
    ones it does not compare greater than, behind which it did not already
    stand.  Written as an insertion sort from the right. *)
Fixpoint sort_insert {A} (cmp : A → A → Z) (x : A) (l : list A) : list A :=
  match l with
  | [] => [x]
  | y :: r => if (cmp x y <=? 0)%Z then x :: y :: r else y :: sort_insert cmp x r
  end.

Fixpoint sort {A} (cmp : A → A → Z) (l : list A) : list A :=
  match l with
  | [] => []
  | x :: r => sort_insert cmp x (sort cmp r)
  end.

(** [l.find(cb)]: the first element the callback accepts, or [undefined]
    ([None]). *)
Fixpoint find {A} (cb : A → bool) (l : list A) : option A :=
  match l with
  | [] => None
  | x :: r => if cb x then Some x else find cb r
  end.

(** [v] is [null] or [undefined]. *)
Definition is_nullish (v : value) : bool :=
  match v with
  | VUndef | VNull => true
  | _ => false
  end.

(** The first and the last character of a string are not whitespace. *)
Definition starts_clean (s : string) : bool :=
  match s with
  | EmptyString => true
  | String c _ => negb (is_ws c)
  end.

Fixpoint ends_clean (s : string) : bool :=
  match s with
  | EmptyString => true
  | String c EmptyString => negb (is_ws c)
  | String _ r => ends_clean r
  end.

End JS.

(** ** The ideas context ([IdeasProvider]) *)

Module IdeasContext.
Import JS.

Definition STORAGE_KEY : string := "idea-notes:ideas:v1".

(** The state updates the provider hands to [setIdeas], as functions of the
    previous collection. *)

(** [addIdea]: [now_id] and [now_created] are the two readings of
    [Date.now()], [suffix] is [Math.random().toString(16).slice(2)]. *)
Definition addIdea (now_id now_created : Z) (suffix : string) (input : obj)
    (prev : list obj) : list obj :=
  let newIdea : obj :=
    <["createdAt" := VNum now_created]>
    (<["isArchived" := VBool false]>
    (<["isPinned" := VBool false]>
    (<["category" := get input "category"]>
    (<["text" := get input "text"]>
    (<["id" := VStr (pretty now_id +:+ "-" +:+ suffix)]> ∅))))) in
  prev ++ [newIdea].

Definition removeIdea (id : string) (prev : list obj) : list obj :=
  List.filter (λ idea, negb (strict_eq_str (get idea "id") id)) prev.

Definition clearIdeas (prev : list obj) : list obj := [].

Definition updateIdea (id : string) (updates : obj) (prev : list obj) : list obj :=
  map (λ idea,
    if strict_eq_str (get idea "id") id then
      <["createdAt" := get idea "createdAt"]>
      (<["id" := get idea "id"]>
      (spread (spread ∅ idea) updates))
    else idea) prev.

Definition togglePinned (id : string) (prev : list obj) : list obj :=
  map (λ idea,
    if strict_eq_str (get idea "id") id then
      let newPinnedState := js_not (nullish (get idea "isPinned") (VBool false)) in
      <["createdAt" := get idea "createdAt"]>
      (<["id" := get idea "id"]>
      (<["isArchived" := if newPinnedState then VBool false else get idea "isArchived"]>
      (<["isPinned" := VBool newPinnedState]>
      (spread ∅ idea))))
    else idea) prev.

Definition toggleArchived (id : string) (prev : list obj) : list obj :=
  map (λ idea,
    if strict_eq_str (get idea "id") id then
      let newArchivedState := js_not (nullish (get idea "isArchived") (VBool false)) in
      <["createdAt" := get idea "createdAt"]>
      (<["id" := get idea "id"]>
      (<["isPinned" := if newArchivedState then VBool false else get idea "isPinned"]>
      (<["isArchived" := VBool newArchivedState]>
      (spread ∅ idea))))
    else idea) prev.

(** The calls a consumer of the context can make. *)
Inductive op : Type :=
| AddIdea (now_id now_created : Z) (suffix : string) (input : obj)
| RemoveIdea (id : string)
| ClearIdeas
| UpdateIdea (id : string) (updates : obj)
| TogglePinned (id : string)
| ToggleArchived (id : string).

Definition apply_op (o : op) : list obj → list obj :=
  match o with
  | AddIdea n1 n2 sfx input => addIdea n1 n2 sfx input
  | RemoveIdea id => removeIdea id
  | ClearIdeas => clearIdeas
  | UpdateIdea id updates => updateIdea id updates
  | TogglePinned id => togglePinned id
  | ToggleArchived id => toggleArchived id
  end.

Definition is_toggle (o : op) : bool :=
  match o with
  | TogglePinned _ | ToggleArchived _ => true
  | _ => false
  end.

(** The state the pin/archive rule forbids: both flags [true]. *)
Definition pinned_and_archived (idea : obj) : bool :=
  strict_eq_true (get idea "isPinned") && strict_eq_true (get idea "isArchived").

(** What the write-once rule asks of an entry before and after a call. *)
Definition same_identity (idea idea' : obj) : Prop :=
  get idea' "id" = get idea "id" ∧ get idea' "createdAt" = get idea "createdAt".

Definition run_ops (ops : list op) (ideas : list obj) : list obj :=
  foldl (λ acc o, apply_op o acc) ideas ops.

(** *** Hydration *)

(** The callback of [parsed.map] in [loadIdeas]; [None] is the TypeError of
    reading a property of [null]. *)
Definition normalize (idea : value) : option obj :=
  p ← read idea "isPinned";
  a ← read idea "isArchived";
  Some (<["isArchived" := nullish a (VBool false)]>
       (<["isPinned" := nullish p (VBool false)]>
       (spread ∅ (own_props idea)))).

(** What [loadIdeas] passes to [setIdeas], if it calls it at all: [data] is
    what [AsyncStorage.getItem] resolved to ([None] for [null] and for a
    rejected read), [JSON_parse] returns [None] where [JSON.parse] throws.
    Every exception ends in the [catch] block, which sets nothing. *)
Definition loadIdeas (JSON_parse : string → option value)
    (data : option string) (isMounted : bool) : option (list obj) :=
  d ← data;
  parsed ← JSON_parse d;
  match parsed with
  | VArr l => if isMounted then mapM normalize l else None
  | _ => None
  end.

(** The frame the specification claims for hydration: every key a stored
    entry has is loaded with the stored value. *)
Definition stored_fields_kept (entries loaded : list obj) : Prop :=
  length loaded = length entries ∧
  ∀ i entry k v, entries !! i = Some entry → entry !! k = Some v →
    ∃ idea, loaded !! i = Some idea ∧ idea !! k = Some v.

(** *** The provider as a transition system *)

Record store : Type := Store {
  ideas : list obj;
  hasHydrated : bool;
  isMounted : bool;
  loadPending : bool;
  (** the calls of [AsyncStorage.setItem] made so far, oldest first *)
  writes : list (string * string);
}.

(** After the first render: both effects have run once, the load is in
    flight and the autosave effect returned at its guard. *)
Definition mount : store :=
  Store [] false true true [].

(** What can happen to the provider: one call, the load completing, the
    unmount, and several calls made in one event handler, which React batches:
    their updaters run in order on the latest collection and one render
    follows. *)
Inductive event : Type :=
| Call (o : op)
| LoadDone (data : option string)
| Unmount
| Batch (o : op) (os : list op).

Definition is_load (e : event) : bool :=
  match e with
  | LoadDone _ => true
  | _ => false
  end.

Definition is_unmount (e : event) : bool :=
  match e with
  | Unmount => true
  | _ => false
  end.

(** The autosave effect, run after a render in which [ideas] changed: it
    returns at once while [hasHydratedRef.current] is false. *)
Definition saveIdeas (JSON_stringify : list obj → string) (s : store) : store :=
  if hasHydrated s
  then Store (ideas s) (hasHydrated s) (isMounted s) (loadPending s)
             (writes s ++ [(STORAGE_KEY, JSON_stringify (ideas s))])
  else s.

(** [setIdeas] followed by the render it causes; an unmounted provider no
    longer renders. *)
Definition setIdeas (JSON_stringify : list obj → string)
    (f : list obj → list obj) (s : store) : store :=
  if isMounted s
  then saveIdeas JSON_stringify
         (Store (f (ideas s)) (hasHydrated s) (isMounted s) (loadPending s) (writes s))
  else s.

(** One event.  When the load completes, [loadIdeas] calls [setIdeas] and runs
    its [finally] block before it returns; the render that [setIdeas] asked
    for, and the autosave effect after it, come later and so find
    [hasHydratedRef.current] already true. *)
Definition step (JSON_parse : string → option value)
    (JSON_stringify : list obj → string) (s : store) (e : event) : store :=
  match e with
  | Call o => setIdeas JSON_stringify (apply_op o) s
  | LoadDone data =>
      if loadPending s then
        let hydrated := Store (ideas s) true (isMounted s) false (writes s) in
        match loadIdeas JSON_parse data (isMounted s) with
        | Some normalized => setIdeas JSON_stringify (λ _, normalized) hydrated
        | None => hydrated
        end
      else s
  | Unmount => Store (ideas s) (hasHydrated s) false (loadPending s) (writes s)
  | Batch o os => setIdeas JSON_stringify (run_ops (o :: os)) s
  end.

Definition run (JSON_parse : string → option value)
    (JSON_stringify : list obj → string) (s : store) (es : list event) : store :=
  foldl (step JSON_parse JSON_stringify) s es.

(** What holds of the provider at every moment: the hydrated flag is up
    exactly when the load is over, and until then nothing was written. *)
Definition quiet_until_hydrated (s : store) : Prop :=
  hasHydrated s = negb (loadPending s) ∧
  (hasHydrated s = false → writes s = []).

(** The id [addIdea] gives the new idea. *)
Definition new_id (now_id : Z) (suffix : string) : string :=
  pretty now_id +:+ "-" +:+ suffix.

(** The ids of a collection, in order. *)
Definition ids (ideas : list obj) : list value :=
  (λ idea, get idea "id") <$> ideas.

(** A call that writes one of the two flags directly: an update whose
    record has an [isPinned] or an [isArchived] key. *)
Definition writes_flag (o : op) : bool :=
  match o with
  | UpdateIdea _ updates =>
      bool_decide (is_Some (updates !! "isPinned")) ||
      bool_decide (is_Some (updates !! "isArchived"))
  | _ => false
  end.

(** A call that brings an id the collection already has. *)
Definition reuses_id (o : op) (ideas : list obj) : Prop :=
  match o with
  | AddIdea now_id _ suffix _ => VStr (new_id now_id suffix) ∈ ids ideas
  | _ => False
  end.

(** Both flags are there and neither is [null] or [undefined]. *)
Definition flags_set (idea : obj) : bool :=
  negb (is_nullish (get idea "isPinned")) && negb (is_nullish (get idea "isArchived")).

(** The elements of a parsed array that hydration can read. *)
Definition readable (v : value) : bool := negb (is_nullish v).

End IdeasContext.

(** ** The inbox screen ([app/(tabs)/explore.tsx]) *)

Module Explore.
Import JS.

Inductive IdeaCategory : Type := App | Content | Random.

Definition category_name (c : IdeaCategory) : string :=
  match c with
  | App => "App"
  | Content => "Content"
  | Random => "Random"
  end.

(** [IdeaCategory | 'All'] *)
Inductive category_filter : Type :=
| All
| Only (c : IdeaCategory).

Inductive sort_order : Type := newest | oldest.

(** Archive filter *)
Definition archive_step (showArchived : bool) (filtered : list obj) : list obj :=
  if showArchived
  then List.filter (λ item, strict_eq_true (get item "isArchived")) filtered
  else List.filter (λ item, negb (strict_eq_true (get item "isArchived"))) filtered.

(** [searchQuery.trim().toLowerCase().replace(/\s+/g, ' ')] *)
Definition normalizedQuery (searchQuery : string) : string :=
  replace_ws (toLowerCase (trim searchQuery)).

(** The callback of the search filter; [item.text.toLowerCase()] is a
    TypeError unless [item.text] is a string. *)
Definition search_match (normalizedQuery : string) (item : obj) : outcome bool :=
  match get item "text" with
  | VStr text =>
      let normalizedText := replace_ws (toLowerCase text) in
      Ok (includes normalizedText normalizedQuery)
  | _ => Throws
  end.

(** Search filter; the empty string is the only falsy string. *)
Definition search_step (searchQuery : string) (filtered : list obj) : outcome (list obj) :=
  if bool_decide (trim searchQuery = "")
  then Ok filtered
  else filter_with (search_match (normalizedQuery searchQuery)) filtered.

(** Category filter *)
Definition category_step (selectedCategory : category_filter) (filtered : list obj) : list obj :=
  match selectedCategory with
  | All => filtered
  | Only c =>
      List.filter (λ item, strict_eq_str (get item "category") (category_name c)) filtered
  end.

(** [item.createdAt] where it is a number. *)
Definition createdAt (item : obj) : option Z :=
  match get item "createdAt" with
  | VNum z => Some z
  | _ => None
  end.

Definition createdAt_or_0 (item : obj) : Z := default 0%Z (createdAt item).

(** The comparator of the sort, on items whose [createdAt] is a number. *)
Definition compare_ideas (sortOrder : sort_order) (a b : obj) : Z :=
  match sortOrder with
  | newest => createdAt_or_0 b - createdAt_or_0 a
  | oldest => createdAt_or_0 a - createdAt_or_0 b
  end.

(** Sort.  When some [createdAt] is not a number the subtraction coerces its
    operands and can yield [NaN]; what [sort] does with such a comparator is
    left to the engine, and the model says nothing about it. *)
Definition sort_step (sortOrder : sort_order) (filtered : list obj) : outcome (list obj) :=
  if forallb (λ item, bool_decide (is_Some (createdAt item))) filtered
  then Ok (sort (compare_ideas sortOrder) filtered)
  else Unspecified.

Definition visibleIdeas (ideas : list obj) (showArchived : bool)
    (searchQuery : string) (selectedCategory : category_filter)
    (sortOrder : sort_order) : outcome (list obj) :=
  let filtered := archive_step showArchived ideas in
  bind (search_step searchQuery filtered) (λ filtered,
  let filtered := category_step selectedCategory filtered in
  sort_step sortOrder filtered).

(** Predicates of the specification. *)

Definition has_text (item : obj) : Prop := ∃ text, get item "text" = VStr text.

Definition has_createdAt (item : obj) : Prop := is_Some (createdAt item).

(** [a] may stand before [b] in the given order. *)
Definition in_order (sortOrder : sort_order) (a b : obj) : Prop :=
  match sortOrder with
  | newest => (createdAt_or_0 b ≤ createdAt_or_0 a)%Z
  | oldest => (createdAt_or_0 a ≤ createdAt_or_0 b)%Z
  end.

(** The entries created at [t], in the order of the list. *)
Definition created_at (t : Z) (l : list obj) : list obj :=
  List.filter (λ item, bool_decide (createdAt item = Some t)) l.

(** What each filter of [visibleIdeas] asks of an entry. *)
Definition in_view (showArchived : bool) (item : obj) : Prop :=
  strict_eq_true (get item "isArchived") = showArchived.

Definition in_category (selectedCategory : category_filter) (item : obj) : Prop :=
  match selectedCategory with
  | All => True
  | Only c => get item "category" = VStr (category_name c)
  end.

Definition matches_query (searchQuery : string) (item : obj) : Prop :=
  all_ws searchQuery = true ∨
  ∃ text, get item "text" = VStr text ∧
    is_substring (normalizedQuery searchQuery) (replace_ws (toLowerCase text)).

(** [pinnedIdeas] and [regularIdeas] *)
Definition pin_split (visibleIdeas : list obj) (showArchived : bool) : list obj * list obj :=
  if showArchived
  then ([], visibleIdeas)
  else (List.filter (λ item, strict_eq_true (get item "isPinned")) visibleIdeas,
        List.filter (λ item, negb (strict_eq_true (get item "isPinned"))) visibleIdeas).

(** *** Placing the dropdown menus *)

Record AnchorRect : Type := Anchor {
  x : Z;
  y : Z;
  width : Z;
  height : Z;
}.

Definition padding : Z := 16.

(** [calculateMenuPosition]: [windowWidth] and [windowHeight] are what
    [Dimensions.get('window')] returns; the result is [(top, left)].  The
    coordinates are integers, on which the additions, subtractions,
    [Math.max] and [Math.min] of doubles are exact. *)
Definition calculateMenuPosition (windowWidth windowHeight : Z)
    (anchorRect : AnchorRect) (menuWidth menuHeight offset : Z) : Z * Z :=
  let top := (y anchorRect + height anchorRect + offset)%Z in
  let left := x anchorRect in
  let left := Z.max padding (Z.min left (windowWidth - menuWidth - padding)) in
  let left :=
    if (windowWidth - padding <? left + menuWidth)%Z
    then (windowWidth - menuWidth - padding)%Z else left in
  let left := if (left <? padding)%Z then padding else left in
  let top :=
    if (windowHeight - padding <? top + menuHeight)%Z then
      let top := (y anchorRect - menuHeight - offset)%Z in
      if (top <? padding)%Z then
        let top := (windowHeight - menuHeight - padding)%Z in
        if (top <? padding)%Z then padding else top
      else top
    else top in
  let top := if (top <? padding)%Z then padding else top in
  (top, left).

(** The width both menus are given and placed with:
    [Math.min(300, Dimensions.get('window').width - 32)]. *)
Definition menu_width (windowWidth : Z) : Z := Z.min 300 (windowWidth - 32).

End Explore.

(** ** The capture screen *)

Module Capture.
Import JS.

Definition canSubmit (ideaText : string) : bool :=
  (0 <? String.length (trim ideaText))%nat.

(** [submitIdea]: the argument it calls [addIdea] with, or [None] when it
    returns at its guard. *)
Definition submitIdea (ideaText : string) (selectedCategory : Explore.IdeaCategory)
    (isOutside : bool) : option obj :=
  if negb (canSubmit ideaText) then None
  else
    let text := trim ideaText in
    Some (<["isOutside" := VBool isOutside]>
         (<["category" := VStr (Explore.category_name selectedCategory)]>
         (<["text" := VStr text]> ∅))).

End Capture.

(** ** The note screen *)

Module NoteDetail.
Import JS.

(** The route parameter [params.id : string | string[] | undefined]. *)
Inductive route_param : Type :=
| PString (s : string)
| PArray (l : list string)
| PUndefined.

(** [typeof params.id === 'string' ? params.id
     : Array.isArray(params.id) ? params.id[0] : undefined] *)
Definition normalize_id (p : route_param) : option string :=
  match p with
  | PString s => Some s
  | PArray l => head l
  | PUndefined => None
  end.

(** [id ? ideas.find((i) => i.id === id) : undefined]; the empty string is
    falsy. *)
Definition find_idea (id : option string) (ideas : list obj) : option obj :=
  match id with
  | Some id =>
      if bool_decide (id = "") then None
      else find (λ i, strict_eq_str (get i "id") id) ideas
  | None => None
  end.

Definition isDirty (draftText originalText : string) : bool :=
  negb (bool_decide (trim draftText = originalText)).

Definition canSave (draftText originalText : string) : bool :=
  isDirty draftText originalText && (0 <? String.length (trim draftText))%nat.

(** The save button: the call it makes on the context, if any.  The id it
    passes is [idea.id], which [find] compared equal to the string [id]. *)
Definition save (id : option string) (ideas : list obj)
    (draftText originalText : string) : option IdeasContext.op :=
  match id, find_idea id ideas with
  | Some id, Some idea =>
      if canSave draftText originalText
      then Some (IdeasContext.UpdateIdea id (<["text" := VStr (trim draftText)]> ∅))
      else None
  | _, _ => None
  end.

End NoteDetail.

(** ** The earlier revision of the store *)

Module Legacy.
Import JS.

(** [addIdea] of the revision with the [isOutside] flag and without pinning
    and archiving. *)
Definition addIdea (now_id now_created : Z) (suffix : string) (input : obj)
    (prev : list obj) : list obj :=
  let newIdea : obj :=
    <["createdAt" := VNum now_created]>
    (<["isOutside" := get input "isOutside"]>
    (<["category" := get input "category"]>
    (<["text" := get input "text"]>
    (<["id" := VStr (pretty now_id +:+ "-" +:+ suffix)]> ∅)))) in
  prev ++ [newIdea].

(** The shape of what that revision stored: neither flag is there. *)
Definition unflagged (entry : obj) : Prop :=
  entry !! "isPinned" = None ∧ entry !! "isArchived" = None.

End Legacy.

(** ** Sample data *)

Module Samples.
Import JS.

Definition idea (id text category : string) (isPinned isArchived : bool)
    (createdAt : Z) : obj :=
  <["createdAt" := VNum createdAt]>
  (<["isArchived" := VBool isArchived]>
  (<["isPinned" := VBool isPinned]>
  (<["category" := VStr category]>
  (<["text" := VStr text]>
  (<["id" := VStr id]> ∅))))).

(** An archived note and a pinned one. *)
Definition note_a : obj := idea "a" "Ship v1" "App" false true 100.
Definition note_b : obj := idea "b" "please buy milk today" "Random" true false 100.
Definition note_c : obj := idea "c" "Call  Bob" "Content" false false 200.

(** A stored entry of the earlier schema, without the two flags. *)
Definition legacy_entry : obj :=
  <["isOutside" := VBool true]>
  (<["createdAt" := VNum 50]>
  (<["category" := VStr "Random"]>
  (<["text" := VStr "old note"]>
  (<["id" := VStr "l"]> ∅)))).

(** A stored entry whose [isPinned] is [null]. *)
Definition null_flag_entry : obj :=
  <["isPinned" := VNull]> (<["id" := VStr "n"]> ∅).

(** The record the open question of the specification is about. *)
Definition both_flags : obj :=
  <["isArchived" := VBool true]> (<["isPinned" := VBool true]> ∅).

(** An update that names the two write-once fields. *)
Definition overwriting_update : obj :=
  <["createdAt" := VNum 7]> (<["id" := VStr "x"]> (<["text" := VStr "x"]> ∅)).

(** [JSON.parse] on a text that holds the given value. *)
Definition parses_to (parsed : value) : string → option value := λ _, Some parsed.

(** A session: a note captured while the load is in flight, the load
    completing with one stored legacy entry, then two calls. *)
Definition session : list IdeasContext.event :=
  [ IdeasContext.Call (IdeasContext.AddIdea 1700 1700 "9f3a" (idea "" "early" "App" false false 0));
    IdeasContext.LoadDone (Some "stored");
    IdeasContext.Call (IdeasContext.TogglePinned "l");
    IdeasContext.Call (IdeasContext.RemoveIdea "zz") ].

(** A stand-in for [JSON.stringify] that tells collections apart by their
    ids only. *)
Definition stringify_ids (l : list obj) : string :=
  foldr (λ idea acc,
    match get idea "id" with VStr id => id +:+ ";" +:+ acc | _ => "?;" +:+ acc end)
    "" l.

(** A provider that was unmounted after its load completed. *)
Definition unmounted_store : IdeasContext.store :=
  IdeasContext.Store [note_a] true false false [].

End Samples.

(** ** Reading objects *)

Section ObjectFacts.
Import JS.
Implicit Types (o : obj) (k : string) (v : value).

Lemma get_insert_eq o k v : get (<[k:=v]> o) k = v.
Proof. unfold get. by rewrite lookup_insert_eq. Qed.

Lemma get_insert_ne o k k' v : k ≠ k' → get (<[k:=v]> o) k' = get o k'.
Proof. intros Hne. unfold get. by rewrite lookup_insert_ne. Qed.

Lemma spread_empty o : spread ∅ o = o.
Proof. unfold spread. apply (right_id_L ∅ (∪)). Qed.

Lemma get_spread base src k :
  get (spread base src) k = match src !! k with Some v => v | None => get base k end.
Proof.
  unfold get, spread. destruct (src !! k) as [v|] eqn:Hk.
  - by rewrite (lookup_union_Some_l _ _ _ _ Hk).
  - by rewrite lookup_union_r.
Qed.

Lemma js_not_nullish v : js_not (nullish v (VBool false)) = js_not v.
Proof. by destruct v. Qed.

Lemma strict_eq_str_true v s : strict_eq_str v s = true ↔ v = VStr s.
Proof.
  destruct v; simpl; try (split; [discriminate | congruence]).
  rewrite bool_decide_eq_true. split; congruence.
Qed.

Lemma strict_eq_str_false v s : strict_eq_str v s = false ↔ v ≠ VStr s.
Proof.
  rewrite <- strict_eq_str_true. destruct (strict_eq_str v s); split; congruence.
Qed.

Lemma lookup_map {A B} (f : A → B) (l : list A) (i : nat) :
  map f l !! i = f <$> l !! i.
Proof. change (map f l) with (f <$> l). apply list_lookup_fmap. Qed.

Lemma map_unchanged {A} (f : A → A) (l : list A) :
  (∀ x, x ∈ l → f x = x) → map f l = l.
Proof.
  induction l as [|x l IH]; intros Hf; simpl; [done|].
  rewrite Hf by left. rewrite IH; [done|]. intros y Hy. apply Hf. by right.
Qed.

Lemma filter_unchanged {A} (f : A → bool) (l : list A) :
  (∀ x, x ∈ l → f x = true) → List.filter f l = l.
Proof.
  induction l as [|x l IH]; intros Hf; simpl; [done|].
  rewrite Hf by left. rewrite IH; [done|]. intros y Hy. apply Hf. by right.
Qed.

End ObjectFacts.

Ltac get_simpl :=
  repeat first
    [ rewrite get_insert_eq
    | rewrite get_insert_ne by discriminate
    | rewrite spread_empty ].

(** ** Properties of the store operations *)

Section StoreFacts.
Import JS IdeasContext.
Implicit Types (o idea updates : obj) (prev : list obj) (k id : string) (v : value).

(** What each toggle makes of an entry it matches. *)
Lemma togglePinned_matched prev id i idea :
  prev !! i = Some idea → get idea "id" = VStr id →
  ∃ idea', togglePinned id prev !! i = Some idea' ∧
    get idea' "isPinned" = VBool (js_not (get idea "isPinned")) ∧
    get idea' "isArchived" =
      (if js_not (get idea "isPinned") then VBool false else get idea "isArchived") ∧
    get idea' "id" = get idea "id" ∧
    get idea' "createdAt" = get idea "createdAt".
Proof.
  intros Hi Hid. unfold togglePinned. rewrite lookup_map, Hi. simpl.
  apply strict_eq_str_true in Hid. rewrite Hid.
  eexists. split; [reflexivity|]. get_simpl.
  by rewrite js_not_nullish.
Qed.

Lemma toggleArchived_matched prev id i idea :
  prev !! i = Some idea → get idea "id" = VStr id →
  ∃ idea', toggleArchived id prev !! i = Some idea' ∧
    get idea' "isArchived" = VBool (js_not (get idea "isArchived")) ∧
    get idea' "isPinned" =
      (if js_not (get idea "isArchived") then VBool false else get idea "isPinned") ∧
    get idea' "id" = get idea "id" ∧
    get idea' "createdAt" = get idea "createdAt".
Proof.
  intros Hi Hid. unfold toggleArchived. rewrite lookup_map, Hi. simpl.
  apply strict_eq_str_true in Hid. rewrite Hid.
  eexists. split; [reflexivity|]. get_simpl.
  by rewrite js_not_nullish.
Qed.

Lemma updateIdea_matched prev id updates i idea :
  prev !! i = Some idea → get idea "id" = VStr id →
  ∃ idea', updateIdea id updates prev !! i = Some idea' ∧
    get idea' "id" = get idea "id" ∧
    get idea' "createdAt" = get idea "createdAt" ∧
    ∀ k, k ≠ "id" → k ≠ "createdAt" →
      get idea' k = match updates !! k with Some v => v | None => get idea k end.
Proof.
  intros Hi Hid. unfold updateIdea. rewrite lookup_map, Hi. simpl.
  apply strict_eq_str_true in Hid. rewrite Hid.
  eexists. split; [reflexivity|]. get_simpl. repeat split.
  intros k Hk1 Hk2. rewrite !get_insert_ne by done. by rewrite get_spread.
Qed.

(** An entry with another id is handed back as it is. *)
Lemma unmatched_lookup prev id i idea :
  prev !! i = Some idea → get idea "id" ≠ VStr id →
  togglePinned id prev !! i = Some idea ∧
  toggleArchived id prev !! i = Some idea ∧
  ∀ updates, updateIdea id updates prev !! i = Some idea.
Proof.
  intros Hi Hid. apply strict_eq_str_false in Hid.
  unfold togglePinned, toggleArchived, updateIdea.
  repeat split; intros; rewrite lookup_map, Hi; simpl; by rewrite Hid.
Qed.

(** C1.  Pin/archive mutual exclusion: from a collection in which no idea is
    both pinned and archived, any sequence of [togglePinned] and
    [toggleArchived] calls, with any ids, leads to a collection in which no
    idea is both pinned and archived. *)
Theorem toggles_keep_exclusion (ideas : list obj) (ops : list op) :
  Forall (λ idea, pinned_and_archived idea = false) ideas →
  forallb is_toggle ops = true →
  Forall (λ idea, pinned_and_archived idea = false) (run_ops ops ideas).
Proof.
  unfold run_ops. revert ideas.
  induction ops as [|o ops IH]; intros ideas Hinv Hops; simpl; [done|].
  simpl in Hops. apply andb_true_iff in Hops as [Ho Hops].
  apply IH; [|done]. clear IH Hops.
  assert (Hstep : ∀ b v, strict_eq_true (VBool b) &&
            strict_eq_true (if b then VBool false else v) = false).
  { intros [] v; simpl; [done|]. done. }
  destruct o; try discriminate; simpl;
    apply Forall_lookup; intros i idea' Hi;
    [ unfold togglePinned in Hi | unfold toggleArchived in Hi ];
    rewrite lookup_map in Hi;
    destruct (ideas !! i) as [idea|] eqn:Hidea; simplify_eq/=;
    (destruct (strict_eq_str (get idea "id") id);
      [| by eapply (proj1 (Forall_lookup _ _) Hinv) ]);
    unfold pinned_and_archived; get_simpl.
  - apply Hstep.
  - rewrite andb_comm. apply Hstep.
Qed.

Lemma toggles_keep_exclusion_witness :
  Forall (λ idea, pinned_and_archived idea = false) [Samples.note_a; Samples.note_b] ∧
  forallb is_toggle [TogglePinned "a"; ToggleArchived "b"; TogglePinned "zz"] = true ∧
  Forall (λ idea, pinned_and_archived idea = false)
    (run_ops [TogglePinned "a"; ToggleArchived "b"; TogglePinned "zz"]
       [Samples.note_a; Samples.note_b]).
Proof.
  assert (H1 : Forall (λ idea, pinned_and_archived idea = false)
                 [Samples.note_a; Samples.note_b]).
  { repeat constructor; vm_compute; reflexivity. }
  assert (H2 : forallb is_toggle
                 [TogglePinned "a"; ToggleArchived "b"; TogglePinned "zz"] = true).
  { reflexivity. }
  exact (conj H1 (conj H2 (toggles_keep_exclusion _ _ H1 H2))).
Defined.

(** C2.  On an idea of the collection with the given id, [togglePinned]
    negates [isPinned]; if the new value is true it sets [isArchived] to
    false, otherwise it leaves [isArchived] as it was.  [toggleArchived] does
    the same with the roles of the two flags exchanged. *)
Theorem toggle_flips (prev : list obj) (id : string) (i : nat) (idea : obj) :
  prev !! i = Some idea →
  get idea "id" = VStr id →
  (∃ idea', togglePinned id prev !! i = Some idea' ∧
     get idea' "isPinned" = VBool (js_not (get idea "isPinned")) ∧
     (js_not (get idea "isPinned") = true → get idea' "isArchived" = VBool false) ∧
     (js_not (get idea "isPinned") = false →
        get idea' "isArchived" = get idea "isArchived")) ∧
  (∃ idea', toggleArchived id prev !! i = Some idea' ∧
     get idea' "isArchived" = VBool (js_not (get idea "isArchived")) ∧
     (js_not (get idea "isArchived") = true → get idea' "isPinned" = VBool false) ∧
     (js_not (get idea "isArchived") = false →
        get idea' "isPinned" = get idea "isPinned")).
Proof.
  intros Hi Hid. split.
  - destruct (togglePinned_matched prev id i idea Hi Hid)
      as (idea' & Hl & Hp & Ha & _).
    exists idea'. repeat split; [done|done| |]; intros Hn; by rewrite Ha, Hn.
  - destruct (toggleArchived_matched prev id i idea Hi Hid)
      as (idea' & Hl & Ha & Hp & _).
    exists idea'. repeat split; [done|done| |]; intros Hn; by rewrite Hp, Hn.
Qed.

Lemma toggle_flips_witness :
  [Samples.note_a; Samples.note_b] !! 1%nat = Some Samples.note_b ∧
  get Samples.note_b "id" = VStr "b" ∧
  (∃ idea', togglePinned "b" [Samples.note_a; Samples.note_b] !! 1%nat = Some idea' ∧
     get idea' "isPinned" = VBool (js_not (get Samples.note_b "isPinned")) ∧
     (js_not (get Samples.note_b "isPinned") = true →
        get idea' "isArchived" = VBool false) ∧
     (js_not (get Samples.note_b "isPinned") = false →
        get idea' "isArchived" = get Samples.note_b "isArchived")) ∧
  (∃ idea', toggleArchived "b" [Samples.note_a; Samples.note_b] !! 1%nat = Some idea' ∧
     get idea' "isArchived" = VBool (js_not (get Samples.note_b "isArchived")) ∧
     (js_not (get Samples.note_b "isArchived") = true →
        get idea' "isPinned" = VBool false) ∧
     (js_not (get Samples.note_b "isArchived") = false →
        get idea' "isPinned" = get Samples.note_b "isPinned")).
Proof.
  assert (H1 : [Samples.note_a; Samples.note_b] !! 1%nat = Some Samples.note_b)
    by reflexivity.
  assert (H2 : get Samples.note_b "id" = VStr "b") by (vm_compute; reflexivity).
  exact (conj H1 (conj H2 (toggle_flips _ _ _ _ H1 H2))).
Defined.

(** C3.  Write-once fields: whatever record of updates is passed, also one
    with [id] or [createdAt] keys, [updateIdea], [togglePinned] and
    [toggleArchived] leave the [id] and the [createdAt] of every entry, the
    matching one included, as they were. *)
Theorem id_and_createdAt_kept (prev : list obj) (id : string) (updates : obj)
    (i : nat) (idea : obj) :
  prev !! i = Some idea →
  (∃ idea', updateIdea id updates prev !! i = Some idea' ∧ same_identity idea idea') ∧
  (∃ idea', togglePinned id prev !! i = Some idea' ∧ same_identity idea idea') ∧
  (∃ idea', toggleArchived id prev !! i = Some idea' ∧ same_identity idea idea').
Proof.
  intros Hi. unfold same_identity.
  destruct (strict_eq_str (get idea "id") id) eqn:Hid.
  - apply strict_eq_str_true in Hid.
    destruct (updateIdea_matched prev id updates i idea Hi Hid)
      as (u & ? & ? & ? & _).
    destruct (togglePinned_matched prev id i idea Hi Hid)
      as (p & ? & _ & _ & ? & ?).
    destruct (toggleArchived_matched prev id i idea Hi Hid)
      as (a & ? & _ & _ & ? & ?).
    repeat split; [by exists u | by exists p | by exists a].
  - apply strict_eq_str_false in Hid.
    destruct (unmatched_lookup prev id i idea Hi Hid) as (Hp & Ha & Hu).
    repeat split; by exists idea.
Qed.

Lemma id_and_createdAt_kept_witness :
  [Samples.note_a; Samples.note_b] !! 0%nat = Some Samples.note_a ∧
  (∃ idea', updateIdea "a" Samples.overwriting_update
              [Samples.note_a; Samples.note_b] !! 0%nat = Some idea' ∧
     same_identity Samples.note_a idea') ∧
  (∃ idea', togglePinned "a" [Samples.note_a; Samples.note_b] !! 0%nat = Some idea' ∧
     same_identity Samples.note_a idea') ∧
  (∃ idea', toggleArchived "a" [Samples.note_a; Samples.note_b] !! 0%nat = Some idea' ∧
     same_identity Samples.note_a idea').
Proof.
  assert (H1 : [Samples.note_a; Samples.note_b] !! 0%nat = Some Samples.note_a)
    by reflexivity.
  exact (conj H1 (id_and_createdAt_kept _ "a" Samples.overwriting_update _ _ H1)).
Defined.

(** C4.  No-op on an unknown id: when no entry of the collection has the
    given id, [removeIdea], [updateIdea] with any updates, [togglePinned] and
    [toggleArchived] return the collection they were given. *)
Theorem unknown_id_noop (prev : list obj) (id : string) :
  (∀ idea, idea ∈ prev → get idea "id" ≠ VStr id) →
  removeIdea id prev = prev ∧
  (∀ updates, updateIdea id updates prev = prev) ∧
  togglePinned id prev = prev ∧
  toggleArchived id prev = prev.
Proof.
  intros Hno.
  assert (Hne : ∀ idea, idea ∈ prev → strict_eq_str (get idea "id") id = false).
  { intros idea Hin. by apply strict_eq_str_false, Hno. }
  repeat split; intros;
    first [ apply filter_unchanged | apply map_unchanged ];
    intros idea Hin; by rewrite (Hne idea Hin).
Qed.

Lemma unknown_id_noop_witness :
  (∀ idea, idea ∈ [Samples.note_a; Samples.note_b] → get idea "id" ≠ VStr "zz") ∧
  removeIdea "zz" [Samples.note_a; Samples.note_b] = [Samples.note_a; Samples.note_b] ∧
  (∀ updates, updateIdea "zz" updates [Samples.note_a; Samples.note_b]
              = [Samples.note_a; Samples.note_b]) ∧
  togglePinned "zz" [Samples.note_a; Samples.note_b] = [Samples.note_a; Samples.note_b] ∧
  toggleArchived "zz" [Samples.note_a; Samples.note_b] = [Samples.note_a; Samples.note_b].
Proof.
  assert (H1 : ∀ idea, idea ∈ [Samples.note_a; Samples.note_b] →
                 get idea "id" ≠ VStr "zz").
  { intros idea Hin. apply list_elem_of_In in Hin. simpl in Hin.
    destruct Hin as [<-|[<-|[]]]; vm_compute; discriminate. }
  exact (conj H1 (unknown_id_noop _ _ H1)).
Defined.

(** C8.  [updateIdea] does not enforce the pin/archive rule: on an entry with
    the given id, the update [{isPinned: true, isArchived: true}] leaves both
    flags true. *)
Theorem update_sets_both_flags (prev : list obj) (id : string) (i : nat) (idea : obj) :
  prev !! i = Some idea →
  get idea "id" = VStr id →
  ∃ idea', updateIdea id Samples.both_flags prev !! i = Some idea' ∧
    get idea' "isPinned" = VBool true ∧
    get idea' "isArchived" = VBool true ∧
    pinned_and_archived idea' = true.
Proof.
  intros Hi Hid.
  destruct (updateIdea_matched prev id Samples.both_flags i idea Hi Hid)
    as (idea' & Hl & _ & _ & Hk).
  assert (Hp : get idea' "isPinned" = VBool true) by (by rewrite Hk).
  assert (Ha : get idea' "isArchived" = VBool true) by (by rewrite Hk).
  exists idea'. unfold pinned_and_archived. by rewrite Hp, Ha.
Qed.

Lemma update_sets_both_flags_witness :
  [Samples.note_a; Samples.note_b] !! 1%nat = Some Samples.note_b ∧
  get Samples.note_b "id" = VStr "b" ∧
  ∃ idea', updateIdea "b" Samples.both_flags [Samples.note_a; Samples.note_b] !! 1%nat
           = Some idea' ∧
    get idea' "isPinned" = VBool true ∧
    get idea' "isArchived" = VBool true ∧
    pinned_and_archived idea' = true.
Proof.
  assert (H1 : [Samples.note_a; Samples.note_b] !! 1%nat = Some Samples.note_b)
    by reflexivity.
  assert (H2 : get Samples.note_b "id" = VStr "b") by (vm_compute; reflexivity).
  exact (conj H1 (conj H2 (update_sets_both_flags _ _ _ _ H1 H2))).
Defined.

End StoreFacts.

(** ** Hydration *)

Section HydrationFacts.
Import JS IdeasContext.
Implicit Types (entry idea : obj) (entries loaded : list obj) (k : string).

Lemma normalize_entry entry :
  normalize (VObj entry) =
    Some (<["isArchived" := nullish (get entry "isArchived") (VBool false)]>
         (<["isPinned" := nullish (get entry "isPinned") (VBool false)]> entry)).
Proof. unfold normalize. simpl. unfold spread. by rewrite (right_id_L ∅ (∪)). Qed.

Lemma nullish_absent entry k :
  entry !! k = None → nullish (get entry k) (VBool false) = VBool false.
Proof. intros Hk. unfold get. by rewrite Hk. Qed.

(** A stored array of objects is loaded entry by entry. *)
Lemma normalize_entries entries :
  ∃ loaded, mapM normalize (VObj <$> entries) = Some loaded ∧
    length loaded = length entries ∧
    ∀ i entry, entries !! i = Some entry →
      loaded !! i =
        Some (<["isArchived" := nullish (get entry "isArchived") (VBool false)]>
             (<["isPinned" := nullish (get entry "isPinned") (VBool false)]> entry)).
Proof.
  induction entries as [|entry entries IH].
  - exists []. repeat split. intros i entry Hi. by rewrite lookup_nil in Hi.
  - destruct IH as (loaded & Hm & Hlen & Hl).
    rewrite fmap_cons. cbn [mapM]. rewrite normalize_entry, Hm. simpl.
    eexists. split; [reflexivity|].
    split; [simpl; by rewrite Hlen|].
    intros [|i] e Hi; simpl in *; [by simplify_eq | by apply Hl].
Qed.

Lemma loadIdeas_entries JSON_parse data entries :
  JSON_parse data = Some (VArr (VObj <$> entries)) →
  loadIdeas JSON_parse (Some data) true = mapM normalize (VObj <$> entries).
Proof. intros Hparse. unfold loadIdeas. simpl. by rewrite Hparse. Qed.

(** C5.  Schema migration on read: when the stored text parses to an array of
    entries, each entry is loaded, and an entry without the [isPinned] key or
    without the [isArchived] key is loaded with that flag [false]. *)
Theorem hydration_defaults_flags (JSON_parse : string → option value)
    (data : string) (entries : list obj) :
  JSON_parse data = Some (VArr (VObj <$> entries)) →
  ∃ loaded, loadIdeas JSON_parse (Some data) true = Some loaded ∧
    ∀ i entry, entries !! i = Some entry →
      ∃ idea, loaded !! i = Some idea ∧
        (entry !! "isPinned" = None → idea !! "isPinned" = Some (VBool false)) ∧
        (entry !! "isArchived" = None → idea !! "isArchived" = Some (VBool false)).
Proof.
  intros Hparse. rewrite (loadIdeas_entries _ _ _ Hparse).
  destruct (normalize_entries entries) as (loaded & Hm & _ & Hl).
  exists loaded. split; [done|]. intros i entry Hi.
  eexists. split; [by apply Hl|]. split; intros Hk.
  - rewrite lookup_insert_ne by discriminate.
    by rewrite lookup_insert_eq, nullish_absent.
  - by rewrite lookup_insert_eq, nullish_absent.
Qed.

Lemma hydration_defaults_flags_witness :
  Samples.parses_to (VArr (VObj <$> [Samples.legacy_entry; Samples.note_a])) "stored"
    = Some (VArr (VObj <$> [Samples.legacy_entry; Samples.note_a])) ∧
  ∃ loaded,
    loadIdeas (Samples.parses_to (VArr (VObj <$> [Samples.legacy_entry; Samples.note_a])))
      (Some "stored") true = Some loaded ∧
    ∀ i entry, [Samples.legacy_entry; Samples.note_a] !! i = Some entry →
      ∃ idea, loaded !! i = Some idea ∧
        (entry !! "isPinned" = None → idea !! "isPinned" = Some (VBool false)) ∧
        (entry !! "isArchived" = None → idea !! "isArchived" = Some (VBool false)).
Proof.
  split; [reflexivity|].
  apply (hydration_defaults_flags _ "stored" [Samples.legacy_entry; Samples.note_a]).
  reflexivity.
Defined.

(** C10, as the specification has it, fails: a stored entry whose [isPinned]
    is [null] has the key, and is loaded with [false] in its place. *)
Lemma hydration_replaces_null_flag :
  ∃ loaded,
    loadIdeas (Samples.parses_to (VArr (VObj <$> [Samples.null_flag_entry])))
      (Some "stored") true = Some loaded ∧
    ¬ stored_fields_kept [Samples.null_flag_entry] loaded.
Proof.
  destruct (normalize_entries [Samples.null_flag_entry]) as (loaded & Hm & _ & Hl).
  exists loaded. split.
  - by rewrite (loadIdeas_entries _ _ [Samples.null_flag_entry]).
  - intros [_ Hkept].
    destruct (Hkept 0%nat Samples.null_flag_entry "isPinned" VNull)
      as (idea & Hi & Hk); [done | apply lookup_insert_eq |].
    rewrite (Hl 0%nat Samples.null_flag_entry eq_refl) in Hi.
    injection Hi as <-.
    rewrite lookup_insert_ne in Hk by discriminate.
    rewrite lookup_insert_eq in Hk.
    unfold Samples.null_flag_entry in Hk. rewrite get_insert_eq in Hk.
    discriminate.
Qed.

(** C10, amended.  Hydration keeps the number and the order of the stored
    entries; in each it keeps every field other than the two flags and adds
    none; each of the two flags keeps its stored value unless the key is
    absent or holds [null], and is [false] then. *)
Theorem hydration_frame (JSON_parse : string → option value)
    (data : string) (entries : list obj) :
  JSON_parse data = Some (VArr (VObj <$> entries)) →
  ∃ loaded, loadIdeas JSON_parse (Some data) true = Some loaded ∧
    length loaded = length entries ∧
    ∀ i entry, entries !! i = Some entry →
      ∃ idea, loaded !! i = Some idea ∧
        (∀ k, k ≠ "isPinned" → k ≠ "isArchived" → idea !! k = entry !! k) ∧
        (∀ k, k = "isPinned" ∨ k = "isArchived" →
           (∀ v, entry !! k = Some v → v ≠ VNull → v ≠ VUndef → idea !! k = Some v) ∧
           (entry !! k = None ∨ entry !! k = Some VNull →
              idea !! k = Some (VBool false))).
Proof.
  intros Hparse. rewrite (loadIdeas_entries _ _ _ Hparse).
  destruct (normalize_entries entries) as (loaded & Hm & Hlen & Hl).
  exists loaded. repeat split; [done|done|]. intros i entry Hi.
  eexists. split; [by apply Hl|]. split.
  - intros k Hp Ha. by rewrite !lookup_insert_ne.
  - assert (Hflag : ∀ k idea, idea !! k = Some (nullish (get entry k) (VBool false)) →
        (∀ v, entry !! k = Some v → v ≠ VNull → v ≠ VUndef → idea !! k = Some v) ∧
        (entry !! k = None ∨ entry !! k = Some VNull → idea !! k = Some (VBool false))).
    { intros k idea ->. unfold get. split.
      - intros v -> Hn Hu. simpl. by destruct v.
      - by intros [->| ->]. }
    intros k [->| ->]; apply Hflag.
    + rewrite lookup_insert_ne by discriminate. by rewrite lookup_insert_eq.
    + by rewrite lookup_insert_eq.
Qed.

Lemma hydration_frame_witness :
  Samples.parses_to (VArr (VObj <$> [Samples.legacy_entry; Samples.null_flag_entry]))
    "stored"
    = Some (VArr (VObj <$> [Samples.legacy_entry; Samples.null_flag_entry])) ∧
  ∃ loaded,
    loadIdeas
      (Samples.parses_to (VArr (VObj <$> [Samples.legacy_entry; Samples.null_flag_entry])))
      (Some "stored") true = Some loaded ∧
    length loaded = length [Samples.legacy_entry; Samples.null_flag_entry] ∧
    ∀ i entry, [Samples.legacy_entry; Samples.null_flag_entry] !! i = Some entry →
      ∃ idea, loaded !! i = Some idea ∧
        (∀ k, k ≠ "isPinned" → k ≠ "isArchived" → idea !! k = entry !! k) ∧
        (∀ k, k = "isPinned" ∨ k = "isArchived" →
           (∀ v, entry !! k = Some v → v ≠ VNull → v ≠ VUndef → idea !! k = Some v) ∧
           (entry !! k = None ∨ entry !! k = Some VNull →
              idea !! k = Some (VBool false))).
Proof.
  split; [reflexivity|].
  apply (hydration_frame _ "stored" [Samples.legacy_entry; Samples.null_flag_entry]).
  reflexivity.
Defined.

End HydrationFacts.

(** ** The inbox projection *)

Section StringFacts.
Import JS.
Implicit Types (s q : string) (c : ascii).

Lemma starts_with_spec q s : starts_with q s = true ↔ ∃ post, s = q +:+ post.
Proof.
  revert s. induction q as [|a q IH]; intros s; simpl.
  - split; [intros _; by exists s | done].
  - destruct s as [|b s]; simpl.
    + split; [done | intros [post Hp]; discriminate].
    + rewrite andb_true_iff, bool_decide_eq_true, IH. split.
      * intros [-> [post ->]]. by exists post.
      * intros [post Hp]. injection Hp as -> ->. split; [done | by exists post].
Qed.

Lemma includes_spec s q : includes s q = true ↔ is_substring q s.
Proof.
  unfold is_substring. induction s as [|c s IH]; simpl.
  - rewrite orb_false_r, starts_with_spec. split.
    + intros [post Hp]. by exists "", post.
    + intros (pre & post & Hp). destruct pre; [by exists post | discriminate].
  - rewrite orb_true_iff, starts_with_spec, IH. split.
    + intros [[post Hp] | (pre & post & ->)].
      * by exists "", post.
      * by exists (String c pre), post.
    + intros (pre & post & Hp). destruct pre as [|c' pre]; simpl in Hp.
      * left. by exists post.
      * right. injection Hp as -> ->. by exists pre, post.
Qed.

Lemma trimStart_empty s : trimStart s = "" ↔ all_ws s = true.
Proof.
  induction s as [|c s IH]; simpl; [done|].
  destruct (is_ws c); simpl; [done|]. split; discriminate.
Qed.

Lemma trimEnd_empty s : trimEnd s = "" ↔ all_ws s = true.
Proof.
  induction s as [|c s IH]; simpl; [done|].
  destruct (trimEnd s) eqn:Ht.
  - destruct (is_ws c); simpl; [by rewrite <- IH | split; discriminate].
  - split; [discriminate|]. rewrite andb_true_iff. intros [_ Hs].
    apply IH in Hs. discriminate.
Qed.

Lemma trimStart_all_ws s : all_ws (trimStart s) = all_ws s.
Proof.
  induction s as [|c s IH]; simpl; [done|].
  destruct (is_ws c) eqn:Hc; simpl; [done | by rewrite Hc].
Qed.

(** [trim] leaves nothing exactly of the empty and the whitespace-only
    strings. *)
Lemma trim_empty s : trim s = "" ↔ all_ws s = true.
Proof. unfold trim. by rewrite trimEnd_empty, trimStart_all_ws. Qed.

(** What collapsing does: the result has single spaces only, the other
    characters are untouched, and a text that is single-spaced already is
    left as it is. *)
Lemma collapse_single_spaced b s : single_spaced b (collapse b s) = true.
Proof.
  revert b. induction s as [|c s IH]; intros b; simpl; [done|].
  destruct (is_ws c) eqn:Hc.
  - destruct b; [apply IH|]. simpl. by rewrite IH.
  - simpl. by rewrite Hc.
Qed.

Lemma collapse_letters b s : letters (collapse b s) = letters s.
Proof.
  revert b. induction s as [|c s IH]; intros b; simpl; [done|].
  destruct (is_ws c) eqn:Hc.
  - destruct b; [apply IH|]. simpl. apply IH.
  - simpl. by rewrite Hc, IH.
Qed.

Lemma collapse_fixed b s : single_spaced b s = true → collapse b s = s.
Proof.
  revert b. induction s as [|c s IH]; intros b; simpl; [done|].
  destruct (is_ws c) eqn:Hc.
  - rewrite !andb_true_iff, bool_decide_eq_true, negb_true_iff.
    intros [[-> ->] Hs]. by rewrite IH.
  - intros Hs. by rewrite IH.
Qed.

End StringFacts.

Section SearchFacts.
Import JS Explore.
Implicit Types (item : obj) (filtered kept : list obj).

(** A callback that never throws makes [filter_with] the plain filter. *)
Lemma filter_with_total {A} (cb : A → outcome bool) (f : A → bool) (l : list A) :
  Forall (λ x, cb x = Ok (f x)) l → filter_with cb l = Ok (List.filter f l).
Proof.
  induction 1 as [|x l Hx _ IH]; simpl; [done|].
  rewrite Hx, IH. simpl. by destruct (f x).
Qed.

Lemma search_step_blank searchQuery filtered :
  all_ws searchQuery = true → search_step searchQuery filtered = Ok filtered.
Proof.
  intros Hq. apply trim_empty in Hq. unfold search_step.
  by rewrite bool_decide_eq_true_2.
Qed.

Lemma search_step_single searchQuery item text :
  all_ws searchQuery = false →
  get item "text" = VStr text →
  search_step searchQuery [item] =
    Ok (if includes (replace_ws (toLowerCase text)) (normalizedQuery searchQuery)
        then [item] else []).
Proof.
  intros Hq Ht. unfold search_step. rewrite bool_decide_eq_false_2.
  - simpl. unfold search_match. by rewrite Ht.
  - rewrite trim_empty, Hq. discriminate.
Qed.

Lemma note_b_text : get Samples.note_b "text" = VStr "please buy milk today".
Proof. unfold Samples.note_b, Samples.idea. by get_simpl. Qed.

(** C6.  The text search keeps exactly the entries whose text, lowercased and
    with its whitespace runs collapsed to single spaces, contains the
    trimmed, lowercased and collapsed query as a substring; an empty or
    whitespace-only query keeps every entry.  The query "Buy  milk" keeps an
    entry with the text "please buy milk today", the query "milkshake" drops
    it. *)
Theorem search_step_correct (searchQuery : string) (filtered : list obj) :
  Forall has_text filtered →
  (∃ kept, search_step searchQuery filtered = Ok kept ∧
    (all_ws searchQuery = true → kept = filtered) ∧
    (all_ws searchQuery = false →
       ∃ keep : obj → bool, kept = List.filter keep filtered ∧
         ∀ item text, get item "text" = VStr text →
           (keep item = true ↔
              is_substring (replace_ws (toLowerCase (trim searchQuery)))
                           (replace_ws (toLowerCase text))))) ∧
  get Samples.note_b "text" = VStr "please buy milk today" ∧
  search_step "Buy  milk" [Samples.note_b] = Ok [Samples.note_b] ∧
  search_step "milkshake" [Samples.note_b] = Ok [].
Proof.
  intros Htext. split.
  2: { split; [apply note_b_text|].
       split.
       - by rewrite (search_step_single "Buy  milk" _ _ eq_refl note_b_text).
       - by rewrite (search_step_single "milkshake" _ _ eq_refl note_b_text). }
  destruct (all_ws searchQuery) eqn:Hq.
  - exists filtered. split; [by apply search_step_blank|]. split; [done | discriminate].
  - set (nq := replace_ws (toLowerCase (trim searchQuery))).
    set (keep := λ item, match get item "text" with
                         | VStr text => includes (replace_ws (toLowerCase text)) nq
                         | _ => false
                         end).
    exists (List.filter keep filtered). split; [|split; [discriminate|]].
    + unfold search_step. rewrite bool_decide_eq_false_2.
      * apply filter_with_total. eapply Forall_impl; [exact Htext|].
        intros item [text Ht]. unfold search_match, keep, normalizedQuery.
        by rewrite Ht.
      * rewrite trim_empty, Hq. discriminate.
    + intros _. exists keep. split; [done|].
      intros item text Ht. unfold keep. rewrite Ht. apply includes_spec.
Qed.

Lemma search_step_correct_witness :
  Forall has_text [Samples.note_a; Samples.note_b; Samples.note_c] ∧
  (∃ kept, search_step " SHIP " [Samples.note_a; Samples.note_b; Samples.note_c] = Ok kept ∧
    (all_ws " SHIP " = true → kept = [Samples.note_a; Samples.note_b; Samples.note_c]) ∧
    (all_ws " SHIP " = false →
       ∃ keep : obj → bool,
         kept = List.filter keep [Samples.note_a; Samples.note_b; Samples.note_c] ∧
         ∀ item text, get item "text" = VStr text →
           (keep item = true ↔
              is_substring (replace_ws (toLowerCase (trim " SHIP ")))
                           (replace_ws (toLowerCase text))))) ∧
  get Samples.note_b "text" = VStr "please buy milk today" ∧
  search_step "Buy  milk" [Samples.note_b] = Ok [Samples.note_b] ∧
  search_step "milkshake" [Samples.note_b] = Ok [].
Proof.
  assert (H1 : Forall has_text [Samples.note_a; Samples.note_b; Samples.note_c]).
  { repeat constructor; eexists; vm_compute; reflexivity. }
  exact (conj H1 (search_step_correct " SHIP " _ H1)).
Defined.

End SearchFacts.

Section SortFacts.
Import JS.
Context {A : Type} (cmp : A → A → Z).
Implicit Types (x y : A) (l : list A).

Lemma sort_insert_perm x l : Permutation (x :: l) (sort_insert cmp x l).
Proof.
  induction l as [|y l IH]; simpl; [done|].
  destruct (cmp x y <=? 0)%Z; [done|].
  rewrite perm_swap. by constructor.
Qed.

Lemma sort_perm l : Permutation l (sort cmp l).
Proof.
  induction l as [|x l IH]; simpl; [done|].
  rewrite <- sort_insert_perm. by constructor.
Qed.

(** Stability, for a class [p] of elements that compare equal: inserting
    leaves the members of the class in their order. *)
Lemma sort_insert_filter (p : A → bool) x l :
  (∀ y, p x = true → p y = true → (cmp x y <= 0)%Z) →
  List.filter p (sort_insert cmp x l) = List.filter p (x :: l).
Proof.
  intros Hp. induction l as [|y l IH]; simpl; [done|].
  destruct (cmp x y <=? 0)%Z eqn:Hc; [done|].
  simpl in *. rewrite IH.
  destruct (p x) eqn:Hx, (p y) eqn:Hy; try done.
  apply Z.leb_gt in Hc. specialize (Hp y eq_refl Hy). lia.
Qed.

Lemma sort_filter (p : A → bool) l :
  (∀ x y, p x = true → p y = true → (cmp x y <= 0)%Z) →
  List.filter p (sort cmp l) = List.filter p l.
Proof.
  intros Hp. induction l as [|x l IH]; simpl; [done|].
  rewrite sort_insert_filter by (intros y; apply Hp).
  simpl. by rewrite IH.
Qed.

Hypothesis cmp_total : ∀ x y, (0 < cmp x y)%Z → (cmp y x <= 0)%Z.
Hypothesis cmp_trans : ∀ x y z, (cmp x y <= 0)%Z → (cmp y z <= 0)%Z → (cmp x z <= 0)%Z.

Lemma sort_insert_sorted x l :
  StronglySorted (λ a b, (cmp a b <= 0)%Z) l →
  StronglySorted (λ a b, (cmp a b <= 0)%Z) (sort_insert cmp x l).
Proof.
  induction 1 as [|y l Hs IH Hy]; simpl; [repeat constructor|].
  destruct (cmp x y <=? 0)%Z eqn:Hc.
  - apply Z.leb_le in Hc. constructor; [by constructor|].
    constructor; [done|]. eapply Forall_impl; [exact Hy|].
    intros z Hz. by eapply cmp_trans.
  - apply Z.leb_gt in Hc. constructor; [done|].
    rewrite <- sort_insert_perm. constructor; [by apply cmp_total | done].
Qed.

Lemma sort_sorted l : StronglySorted (λ a b, (cmp a b <= 0)%Z) (sort cmp l).
Proof.
  induction l as [|x l IH]; simpl; [constructor | by apply sort_insert_sorted].
Qed.

End SortFacts.

Section SortStepFacts.
Import JS Explore.
Implicit Types (item : obj) (filtered sorted : list obj).

Lemma compare_ideas_in_order sortOrder a b :
  (compare_ideas sortOrder a b <= 0)%Z ↔ in_order sortOrder a b.
Proof. unfold compare_ideas, in_order. destruct sortOrder; lia. Qed.

Lemma sort_step_checked sortOrder filtered :
  Forall has_createdAt filtered →
  sort_step sortOrder filtered = Ok (sort (compare_ideas sortOrder) filtered).
Proof.
  intros Hc. unfold sort_step.
  replace (forallb _ filtered) with true; [done|].
  symmetry. induction Hc as [|item l Hitem _ IH]; simpl; [done|].
  rewrite IH. by rewrite bool_decide_eq_true_2.
Qed.

Lemma StronglySorted_weaken {A} (R S : A → A → Prop) (l : list A) :
  (∀ a b, R a b → S a b) → StronglySorted R l → StronglySorted S l.
Proof.
  intros HRS. induction 1 as [|x l _ IH Hx]; constructor; [done|].
  eapply Forall_impl; [exact Hx | apply HRS].
Qed.

Lemma sample_createdAt :
  createdAt Samples.note_a = Some 100%Z ∧
  createdAt Samples.note_b = Some 100%Z ∧
  createdAt Samples.note_c = Some 200%Z.
Proof.
  unfold createdAt, Samples.note_a, Samples.note_b, Samples.note_c, Samples.idea.
  by get_simpl.
Qed.

Lemma sample_sort sortOrder :
  sort_step sortOrder [Samples.note_a; Samples.note_b; Samples.note_c] =
    Ok match sortOrder with
       | newest => [Samples.note_c; Samples.note_a; Samples.note_b]
       | oldest => [Samples.note_a; Samples.note_b; Samples.note_c]
       end.
Proof.
  destruct sample_createdAt as (Ha & Hb & Hc).
  rewrite sort_step_checked by (repeat constructor; red; eauto).
  f_equal. unfold compare_ideas, createdAt_or_0. destruct sortOrder;
    repeat (cbn -[createdAt Samples.note_a Samples.note_b Samples.note_c];
            rewrite ?Ha, ?Hb, ?Hc); reflexivity.
Qed.

(** C7.  The sort orders the entries by [createdAt], descending for "newest"
    and ascending for "oldest", and is stable: it permutes its input, every
    entry stands before the ones that follow it in the chosen order, and the
    entries created at one time keep their input order.  For A and B created
    at 100 and C at 200, given as A, B, C, "newest" yields C, A, B and
    "oldest" yields A, B, C. *)
Theorem sort_step_correct (sortOrder : sort_order) (filtered : list obj) :
  Forall has_createdAt filtered →
  (∃ sorted, sort_step sortOrder filtered = Ok sorted ∧
     Permutation filtered sorted ∧
     StronglySorted (in_order sortOrder) sorted ∧
     ∀ t, created_at t sorted = created_at t filtered) ∧
  (createdAt Samples.note_a = Some 100%Z ∧
   createdAt Samples.note_b = Some 100%Z ∧
   createdAt Samples.note_c = Some 200%Z) ∧
  sort_step newest [Samples.note_a; Samples.note_b; Samples.note_c]
    = Ok [Samples.note_c; Samples.note_a; Samples.note_b] ∧
  sort_step oldest [Samples.note_a; Samples.note_b; Samples.note_c]
    = Ok [Samples.note_a; Samples.note_b; Samples.note_c].
Proof.
  intros Hc. split; [| split; [apply sample_createdAt|]; split; apply sample_sort ].
  exists (sort (compare_ideas sortOrder) filtered).
  split; [by apply sort_step_checked|]. split; [apply sort_perm|]. split.
  - eapply StronglySorted_weaken; [| apply sort_sorted ].
    + intros a b. apply compare_ideas_in_order.
    + intros x y. unfold compare_ideas. destruct sortOrder; lia.
    + intros x y z. unfold compare_ideas. destruct sortOrder; lia.
  - intros t. unfold created_at. apply sort_filter.
    intros x y Hx Hy. apply bool_decide_eq_true in Hx, Hy.
    unfold compare_ideas, createdAt_or_0. rewrite Hx, Hy.
    destruct sortOrder; simpl; lia.
Qed.

Lemma sort_step_correct_witness :
  Forall has_createdAt [Samples.note_c; Samples.note_b; Samples.note_a] ∧
  (∃ sorted,
     sort_step oldest [Samples.note_c; Samples.note_b; Samples.note_a] = Ok sorted ∧
     Permutation [Samples.note_c; Samples.note_b; Samples.note_a] sorted ∧
     StronglySorted (in_order oldest) sorted ∧
     ∀ t, created_at t sorted
          = created_at t [Samples.note_c; Samples.note_b; Samples.note_a]) ∧
  (createdAt Samples.note_a = Some 100%Z ∧
   createdAt Samples.note_b = Some 100%Z ∧
   createdAt Samples.note_c = Some 200%Z) ∧
  sort_step newest [Samples.note_a; Samples.note_b; Samples.note_c]
    = Ok [Samples.note_c; Samples.note_a; Samples.note_b] ∧
  sort_step oldest [Samples.note_a; Samples.note_b; Samples.note_c]
    = Ok [Samples.note_a; Samples.note_b; Samples.note_c].
Proof.
  assert (H1 : Forall has_createdAt [Samples.note_c; Samples.note_b; Samples.note_a]).
  { repeat constructor; eexists; vm_compute; reflexivity. }
  exact (conj H1 (sort_step_correct oldest _ H1)).
Defined.

End SortStepFacts.

(** ** Persistence *)

Section PersistenceFacts.
Import JS IdeasContext.
Context (JSON_parse : string → option value) (JSON_stringify : list obj → string).
Implicit Types (s : store) (e : event) (es : list event).

Local Abbreviation step' := (step JSON_parse JSON_stringify).
Local Abbreviation run' := (run JSON_parse JSON_stringify).

Lemma quiet_until_hydrated_step s e :
  quiet_until_hydrated s → quiet_until_hydrated (step' s e).
Proof.
  intros [Hflag Hquiet]. destruct s as [xs hyd mnt pend ws]. simpl in *.
  destruct e as [o|data| |o os]; simpl; unfold setIdeas, saveIdeas; simpl.
  - destruct mnt, hyd; simpl; split; auto; discriminate.
  - destruct pend; simpl; [|by split].
    destruct (loadIdeas JSON_parse data mnt); simpl;
      [destruct mnt; simpl|]; split; auto; discriminate.
  - by split.
  - destruct mnt, hyd; simpl; split; auto; discriminate.
Qed.

Lemma quiet_until_hydrated_run es : quiet_until_hydrated (run' mount es).
Proof.
  unfold run. induction es as [|e es IH] using rev_ind.
  - by split.
  - rewrite foldl_snoc. by apply quiet_until_hydrated_step.
Qed.

Lemma change_is_saved s e :
  hasHydrated (step' s e) = true →
  ideas (step' s e) ≠ ideas s →
  writes (step' s e) = (writes s ++ [(STORAGE_KEY, JSON_stringify (ideas (step' s e)))])%list.
Proof.
  destruct s as [xs hyd mnt pend ws].
  destruct e as [o|data| |o os]; simpl; unfold setIdeas, saveIdeas; simpl.
  - destruct mnt; simpl; [|done]. destruct hyd; simpl; [done | discriminate].
  - destruct pend; simpl; [|done].
    destruct (loadIdeas JSON_parse data mnt); simpl; [|done].
    by destruct mnt.
  - done.
  - destruct mnt; simpl; [|done]. destruct hyd; simpl; [done | discriminate].
Qed.

Lemma call_is_saved s o :
  hasHydrated s = true → isMounted s = true →
  ideas (step' s (Call o)) = apply_op o (ideas s) ∧
  writes (step' s (Call o))
    = (writes s ++ [(STORAGE_KEY, JSON_stringify (apply_op o (ideas s)))])%list.
Proof.
  destruct s as [xs hyd mnt pend ws]. simpl. intros -> ->.
  by unfold setIdeas, saveIdeas.
Qed.

(** The sample session: the note captured before the load completed is not
    written and is replaced by the stored collection; each later call is
    written, the one on an unknown id included. *)
Example session_trace :
  let parse := Samples.parses_to (VArr [VObj Samples.legacy_entry]) in
  let early := run parse JSON_stringify mount (take 1 Samples.session) in
  let late := run parse JSON_stringify mount Samples.session in
  (length (ideas early) = 1 ∧ hasHydrated early = false ∧ writes early = []) ∧
  (length (ideas late) = 1 ∧ hasHydrated late = true ∧ isMounted late = true ∧
   (λ idea, (get idea "id", get idea "isPinned")) <$> ideas late
     = [(VStr "l", VBool true)] ∧
   writes late = (λ l, (STORAGE_KEY, JSON_stringify l)) <$>
     [ideas (run parse JSON_stringify mount (take 2 Samples.session));
      ideas late; ideas late]).
Proof. vm_compute. repeat split. Qed.

Lemma run_app s es es' : run' s (es ++ es') = run' (run' s es) es'.
Proof. unfold run. apply foldl_app. Qed.

(** While no load result has arrived the provider is as it was mounted, but
    for its collection and its mounted flag. *)
Lemma in_flight s es :
  hasHydrated s = false → loadPending s = true → writes s = [] →
  Forall (λ e, is_load e = false) es →
  hasHydrated (run' s es) = false ∧ loadPending (run' s es) = true ∧
  writes (run' s es) = [].
Proof.
  intros Hh Hp Hw Hes. revert s Hh Hp Hw.
  induction Hes as [|e es He _ IH]; intros s Hh Hp Hw; [done|].
  change (run' s (e :: es)) with (run' (step' s e) es).
  destruct s as [xs hyd mnt pend ws]. simpl in *. subst hyd pend ws.
  destruct e as [o|data| |o os]; try discriminate; apply IH;
    simpl; unfold setIdeas, saveIdeas; simpl; by destruct mnt.
Qed.

Lemma hydrated_stays s es : hasHydrated s = true → hasHydrated (run' s es) = true.
Proof.
  revert s. induction es as [|e es IH]; intros s Hh; [done|].
  change (run' s (e :: es)) with (run' (step' s e) es). apply IH.
  destruct s as [xs hyd mnt pend ws]. simpl in *. subst hyd.
  destruct e as [o|data| |o os]; simpl; unfold setIdeas, saveIdeas; simpl;
    try (by destruct mnt).
  destruct pend; [|done]. destruct (loadIdeas JSON_parse data mnt); [|done].
  unfold setIdeas, saveIdeas; simpl. by destruct mnt.
Qed.

Lemma mounted_stays s es :
  isMounted s = true → Forall (λ e, is_unmount e = false) es →
  isMounted (run' s es) = true.
Proof.
  intros Hm Hes. revert s Hm.
  induction Hes as [|e es He _ IH]; intros s Hm; [done|].
  change (run' s (e :: es)) with (run' (step' s e) es). apply IH.
  destruct s as [xs hyd mnt pend ws]. simpl in *. subst mnt.
  destruct e as [o|data| |o os]; try discriminate;
    simpl; unfold setIdeas, saveIdeas; simpl; try (by destruct hyd).
  destruct pend; [|done]. destruct (loadIdeas JSON_parse data true); [|done].
  done.
Qed.

(** The load completing, on a provider whose load is pending. *)
Lemma load_done s data :
  loadPending s = true →
  hasHydrated (step' s (LoadDone data)) = true ∧
  loadPending (step' s (LoadDone data)) = false ∧
  (isMounted s = true → ∀ normalized,
     loadIdeas JSON_parse data true = Some normalized →
     ideas (step' s (LoadDone data)) = normalized ∧
     writes (step' s (LoadDone data))
       = (writes s ++ [(STORAGE_KEY, JSON_stringify normalized)])%list) ∧
  (loadIdeas JSON_parse data (isMounted s) = None →
     ideas (step' s (LoadDone data)) = ideas s ∧
     writes (step' s (LoadDone data)) = writes s).
Proof.
  destruct s as [xs hyd mnt pend ws]. simpl. intros ->.
  destruct (loadIdeas JSON_parse data mnt) as [l|] eqn:Hl; simpl.
  - assert (mnt = true) as ->.
    { destruct mnt; [done|]. unfold loadIdeas in Hl.
      destruct data as [d|]; [|done]. simpl in Hl.
      by destruct (JSON_parse d) as [[]|]. }
    unfold setIdeas, saveIdeas. simpl. rewrite Hl.
    split; [done|]. split; [done|]. split; [|done].
    by intros _ normalized [= <-].
  - split; [done|]. split; [done|]. split; [|done].
    intros -> normalized Hn. congruence.
Qed.

Lemma batch_is_saved s o os :
  hasHydrated s = true → isMounted s = true →
  ideas (step' s (Batch o os)) = run_ops (o :: os) (ideas s) ∧
  writes (step' s (Batch o os))
    = (writes s ++ [(STORAGE_KEY, JSON_stringify (run_ops (o :: os) (ideas s)))])%list.
Proof.
  destruct s as [xs hyd mnt pend ws]. simpl. intros -> ->.
  by unfold setIdeas, saveIdeas.
Qed.

(** A step that writes ends with the hydrated flag up: the autosave effect
    has read it as true. *)
Lemma write_needs_hydrated s e :
  writes (step' s e) ≠ writes s → hasHydrated (step' s e) = true.
Proof.
  destruct s as [xs hyd mnt pend ws].
  destruct e as [o|data| |o os]; simpl; unfold setIdeas, saveIdeas; simpl;
    try (by destruct mnt, hyd).
  destruct pend; simpl; [|done].
  destruct (loadIdeas JSON_parse data mnt); simpl; [by destruct mnt | done].
Qed.

(** C9.  No write to storage occurs before the hydration attempt completes:
    in any run of the provider, as long as no load result has arrived the
    hydrated flag is down and nothing has been written, whatever calls were
    made; no step writes unless it ends with the flag up.  The load result
    raises the flag, whatever it is; on a mounted provider a loaded collection
    replaces the one in memory and is written, and a failed or empty load
    leaves memory and storage alone.  From then on the flag stays up and every
    event that changes the collection appends one write of the whole new
    collection, serialised, under the storage key; on a provider that was not
    unmounted that is every call, and every batch of calls made in one
    render. *)
Theorem writes_wait_for_hydration (pre post : list event) (data : option string) :
  Forall (λ e, is_load e = false) pre →
  let before := run' mount pre in
  let loaded := step' before (LoadDone data) in
  let after := run' loaded post in
  (hasHydrated before = false ∧ writes before = []) ∧
  (hasHydrated loaded = true ∧
   (Forall (λ e, is_unmount e = false) pre → ∀ normalized,
      loadIdeas JSON_parse data true = Some normalized →
      ideas loaded = normalized ∧
      writes loaded = [(STORAGE_KEY, JSON_stringify normalized)]) ∧
   (loadIdeas JSON_parse data (isMounted before) = None →
      ideas loaded = ideas before ∧ writes loaded = [])) ∧
  (hasHydrated after = true ∧
   (∀ e, ideas (step' after e) ≠ ideas after →
      writes (step' after e)
        = (writes after ++ [(STORAGE_KEY, JSON_stringify (ideas (step' after e)))])%list) ∧
   (Forall (λ e, is_unmount e = false) (pre ++ post) →
      isMounted after = true ∧
      (∀ o, ideas (step' after (Call o)) = apply_op o (ideas after) ∧
            writes (step' after (Call o))
              = (writes after ++
                 [(STORAGE_KEY, JSON_stringify (apply_op o (ideas after)))])%list) ∧
      (∀ o os, ideas (step' after (Batch o os)) = run_ops (o :: os) (ideas after) ∧
               writes (step' after (Batch o os))
                 = (writes after ++
                    [(STORAGE_KEY, JSON_stringify (run_ops (o :: os) (ideas after)))])%list))) ∧
  (∀ es, hasHydrated (run' mount es) = false → writes (run' mount es) = []) ∧
  (∀ s e, writes (step' s e) ≠ writes s → hasHydrated (step' s e) = true).
Proof.
  intros Hpre before loaded after.
  destruct (in_flight mount pre eq_refl eq_refl eq_refl Hpre) as (Hh & Hp & Hw).
  fold before in Hh, Hp, Hw.
  destruct (load_done before data Hp) as (Hl1 & _ & Hl3 & Hl4).
  fold loaded in Hl1, Hl3, Hl4.
  assert (Hafter : hasHydrated after = true) by (by apply hydrated_stays).
  split; [done|]. split; [|split; [|split]].
  - split; [done|]. split.
    + intros Hmounted normalized Hn.
      destruct (Hl3 (mounted_stays mount pre eq_refl Hmounted) normalized Hn) as [Hi Hws].
      by rewrite Hw in Hws.
    + intros Hnone. destruct (Hl4 Hnone) as [Hi Hws]. by rewrite Hw in Hws.
  - split; [done|]. split.
    + intros e Hchange. apply change_is_saved; [|done].
      change (step' after e) with (run' after [e]). by apply hydrated_stays.
    + intros Hmounted. apply Forall_app in Hmounted as [Hm1 Hm2].
      assert (Hm : isMounted after = true).
      { apply mounted_stays; [|done].
        assert (Hb : isMounted before = true) by (by apply mounted_stays).
        unfold loaded. destruct before as [xs hyd mnt pend ws]. simpl in *.
        subst mnt pend. destruct (loadIdeas JSON_parse data true); [|done].
        unfold setIdeas, saveIdeas. simpl. done. }
      split; [done|]. split.
      * intros o. by apply call_is_saved.
      * intros o os. by apply batch_is_saved.
  - intros es. apply (quiet_until_hydrated_run es).
  - apply write_needs_hydrated.
Qed.

End PersistenceFacts.

Section PersistenceSamples.
Import JS IdeasContext.

(** The sample session cut at its load: one call before, two calls after,
    a stored legacy entry; then a batch of two calls in one render. *)
Lemma writes_wait_for_hydration_witness :
  let parse := Samples.parses_to (VArr (VObj <$> [Samples.legacy_entry])) in
  let before := run parse Samples.stringify_ids mount (take 1 Samples.session) in
  let loaded := step parse Samples.stringify_ids before (LoadDone (Some "stored")) in
  let after := run parse Samples.stringify_ids loaded (drop 2 Samples.session) in
  let batch := step parse Samples.stringify_ids after
                 (Batch (TogglePinned "l") [RemoveIdea "l"]) in
  Forall (λ e, is_load e = false) (take 1 Samples.session) ∧
  Forall (λ e, is_unmount e = false)
    (take 1 Samples.session ++ drop 2 Samples.session) ∧
  (hasHydrated before = false ∧ writes before = []) ∧
  hasHydrated loaded = true ∧
  (∃ normalized, length normalized = 1%nat ∧ ideas loaded = normalized ∧
     writes loaded = [(STORAGE_KEY, Samples.stringify_ids normalized)]) ∧
  hasHydrated after = true ∧ isMounted after = true ∧
  ideas batch = run_ops [TogglePinned "l"; RemoveIdea "l"] (ideas after) ∧
  writes batch
    = (writes after ++
       [(STORAGE_KEY,
         Samples.stringify_ids (run_ops [TogglePinned "l"; RemoveIdea "l"] (ideas after)))])%list.
Proof.
  intros parse before loaded after batch.
  assert (H1 : Forall (λ e, is_load e = false) (take 1 Samples.session)).
  { apply Forall_singleton. reflexivity. }
  assert (H2 : Forall (λ e, is_unmount e = false)
                 (take 1 Samples.session ++ drop 2 Samples.session)).
  { repeat apply Forall_cons_2; [..|apply Forall_nil_2]; reflexivity. }
  assert (H3 : Forall (λ e, is_unmount e = false) (take 1 Samples.session)).
  { apply Forall_singleton. reflexivity. }
  destruct (normalize_entries [Samples.legacy_entry]) as (normalized & Hm & Hlen & _).
  assert (H4 : loadIdeas parse (Some "stored") true = Some normalized).
  { unfold parse. by rewrite (loadIdeas_entries _ _ [Samples.legacy_entry]). }
  destruct (writes_wait_for_hydration parse Samples.stringify_ids
              (take 1 Samples.session) (drop 2 Samples.session) (Some "stored") H1)
    as (Hbefore & (Hloaded & Hwritten & _) & (Hafter & _ & Hcalls) & _).
  destruct (Hwritten H3 normalized H4) as [Hideas Hwrites].
  destruct (Hcalls H2) as (Hmounted & _ & Hbatch).
  destruct (Hbatch (TogglePinned "l") [RemoveIdea "l"]) as [Hbi Hbw].
  split; [exact H1|]. split; [exact H2|]. split; [exact Hbefore|].
  split; [exact Hloaded|].
  split; [exists normalized; split; [exact Hlen | split; [exact Hideas | exact Hwrites]]|].
  split; [exact Hafter|]. split; [exact Hmounted|]. split; [exact Hbi | exact Hbw].
Defined.

End PersistenceSamples.

(** ** Further properties of the store operations *)

Section CollectionFacts.
Import JS IdeasContext.
Implicit Types (o : op) (idea updates input : obj) (prev ideas : list obj)
  (k id : string) (v : value).

Lemma Forall_map_entry (P : obj → Prop) (f : obj → obj) prev :
  (∀ idea, P idea → P (f idea)) → Forall P prev → Forall P (map f prev).
Proof.
  intros Hf. induction 1 as [|idea l Hx _ IH]; simpl; constructor; auto.
Qed.

Lemma Forall_filter_entry (P : obj → Prop) (f : obj → bool) prev :
  Forall P prev → Forall P (List.filter f prev).
Proof.
  induction 1 as [|idea l Hx _ IH]; simpl; [constructor|].
  destruct (f idea); [by constructor | done].
Qed.

Lemma flag_pair_exclusive (b : bool) v :
  strict_eq_true (VBool b) && strict_eq_true (if b then VBool false else v) = false.
Proof. by destruct b. Qed.

(** X1.  Every call other than an update that names [isPinned] or
    [isArchived] keeps the pin/archive rule: from a collection in which no
    idea is both pinned and archived it leads to such a collection. *)
Theorem exclusion_kept_by_op (ideas : list obj) (o : op) :
  Forall (λ idea, pinned_and_archived idea = false) ideas →
  writes_flag o = false →
  Forall (λ idea, pinned_and_archived idea = false) (apply_op o ideas).
Proof.
  intros Hinv Ho. destruct o as [n1 n2 sfx input|id| |id updates|id|id]; simpl.
  - unfold addIdea. apply Forall_app. split; [done|].
    apply Forall_singleton. unfold pinned_and_archived. by get_simpl.
  - by apply Forall_filter_entry.
  - constructor.
  - simpl in Ho. apply orb_false_iff in Ho as [Hp Ha].
    apply bool_decide_eq_false in Hp, Ha.
    rewrite <- eq_None_not_Some in Hp, Ha.
    unfold updateIdea. apply Forall_map_entry; [|done].
    intros idea Hidea. destruct (strict_eq_str (get idea "id") id); [|done].
    revert Hidea. unfold pinned_and_archived. get_simpl.
    by rewrite !get_spread, Hp, Ha.
  - unfold togglePinned. apply Forall_map_entry; [|done].
    intros idea Hidea. destruct (strict_eq_str (get idea "id") id); [|done].
    unfold pinned_and_archived. get_simpl. apply flag_pair_exclusive.
  - unfold toggleArchived. apply Forall_map_entry; [|done].
    intros idea Hidea. destruct (strict_eq_str (get idea "id") id); [|done].
    unfold pinned_and_archived. get_simpl. rewrite andb_comm.
    apply flag_pair_exclusive.
Qed.

Lemma exclusion_kept_by_op_witness :
  Forall (λ idea, pinned_and_archived idea = false) [Samples.note_a; Samples.note_b] ∧
  writes_flag (UpdateIdea "a" Samples.overwriting_update) = false ∧
  Forall (λ idea, pinned_and_archived idea = false)
    (apply_op (UpdateIdea "a" Samples.overwriting_update) [Samples.note_a; Samples.note_b]).
Proof.
  assert (H1 : Forall (λ idea, pinned_and_archived idea = false)
                 [Samples.note_a; Samples.note_b]).
  { repeat apply Forall_cons_2; [| |apply Forall_nil_2];
      unfold pinned_and_archived, Samples.note_a, Samples.note_b, Samples.idea;
      by get_simpl. }
  assert (H2 : writes_flag (UpdateIdea "a" Samples.overwriting_update) = false)
    by (vm_compute; reflexivity).
  exact (conj H1 (conj H2 (exclusion_kept_by_op _ _ H1 H2))).
Defined.

Lemma ids_map_kept (f : obj → obj) prev :
  (∀ idea, get (f idea) "id" = get idea "id") → ids (map f prev) = ids prev.
Proof.
  intros Hf. unfold ids. induction prev as [|idea l IH]; simpl; [done|].
  f_equal; [apply Hf | apply IH].
Qed.

Lemma ids_filter_NoDup (f : obj → bool) prev :
  NoDup (ids prev) → NoDup (ids (List.filter f prev)).
Proof.
  unfold ids. induction prev as [|idea l IH]; simpl; [done|].
  rewrite NoDup_cons. intros [Hnotin Hl].
  assert (Hsub : ∀ v, v ∈ (λ idea, get idea "id") <$> List.filter f l →
                      v ∈ (λ idea, get idea "id") <$> l).
  { clear. intros v. induction l as [|x l IH]; simpl; [done|].
    destruct (f x); simpl; rewrite ?elem_of_cons; intuition. }
  destruct (f idea); simpl; [|by apply IH].
  apply NoDup_cons. split; [|by apply IH]. intros Hin. by apply Hnotin, Hsub.
Qed.

(** X2.  Every call keeps the ids of the collection distinct, unless
    [addIdea] draws an id the collection already has. *)
Theorem ids_stay_distinct (ideas : list obj) (o : op) :
  NoDup (ids ideas) →
  ¬ reuses_id o ideas →
  NoDup (ids (apply_op o ideas)).
Proof.
  intros Hnd Hfresh. destruct o as [n1 n2 sfx input|id| |id updates|id|id]; simpl.
  - simpl in Hfresh. unfold addIdea, ids. rewrite fmap_app. simpl.
    get_simpl. apply NoDup_app. split; [done|]. split.
    + intros v Hv Hin. apply list_elem_of_singleton in Hin. by subst v.
    + apply NoDup_singleton.
  - by apply ids_filter_NoDup.
  - constructor.
  - unfold updateIdea. rewrite ids_map_kept; [done|].
    intros idea. destruct (strict_eq_str (get idea "id") id); [by get_simpl | done].
  - unfold togglePinned. rewrite ids_map_kept; [done|].
    intros idea. destruct (strict_eq_str (get idea "id") id); [by get_simpl | done].
  - unfold toggleArchived. rewrite ids_map_kept; [done|].
    intros idea. destruct (strict_eq_str (get idea "id") id); [by get_simpl | done].
Qed.

Lemma sample_ids : ids [Samples.note_a; Samples.note_b] = [VStr "a"; VStr "b"].
Proof.
  unfold ids, Samples.note_a, Samples.note_b, Samples.idea. simpl. by get_simpl.
Qed.

Lemma ids_stay_distinct_witness :
  NoDup (ids [Samples.note_a; Samples.note_b]) ∧
  ¬ reuses_id (AddIdea 1700 1701 "9f3a" Samples.note_c) [Samples.note_a; Samples.note_b] ∧
  NoDup (ids (apply_op (AddIdea 1700 1701 "9f3a" Samples.note_c)
                [Samples.note_a; Samples.note_b])).
Proof.
  assert (H1 : NoDup (ids [Samples.note_a; Samples.note_b])).
  { rewrite sample_ids. apply NoDup_cons. split; [|apply NoDup_singleton].
    intros Hin. apply list_elem_of_singleton in Hin. discriminate. }
  assert (H2 : ¬ reuses_id (AddIdea 1700 1701 "9f3a" Samples.note_c)
                 [Samples.note_a; Samples.note_b]).
  { unfold reuses_id. rewrite sample_ids. intros Hin.
    apply elem_of_cons in Hin as [Hin|Hin];
      [|apply list_elem_of_singleton in Hin]; vm_compute in Hin; discriminate. }
  exact (conj H1 (conj H2 (ids_stay_distinct _ _ H1 H2))).
Defined.

(** X3.  A toggle touches the two flags only: every other field of every
    entry, matching or not, reads as before, and no entry is added or
    dropped. *)
Theorem toggle_frame (prev : list obj) (id : string) (i : nat) (idea : obj) (k : string) :
  prev !! i = Some idea →
  k ≠ "isPinned" → k ≠ "isArchived" →
  (∃ idea', togglePinned id prev !! i = Some idea' ∧ get idea' k = get idea k) ∧
  (∃ idea', toggleArchived id prev !! i = Some idea' ∧ get idea' k = get idea k) ∧
  length (togglePinned id prev) = length prev ∧
  length (toggleArchived id prev) = length prev.
Proof.
  intros Hi Hp Ha.
  assert (Hframe : ∀ vp va,
    get (<["createdAt" := get idea "createdAt"]> (<["id" := get idea "id"]>
          (<["isArchived" := va]> (<["isPinned" := vp]> idea)))) k = get idea k ∧
    get (<["createdAt" := get idea "createdAt"]> (<["id" := get idea "id"]>
          (<["isPinned" := vp]> (<["isArchived" := va]> idea)))) k = get idea k).
  { intros vp va.
    destruct (decide (k = "createdAt")) as [->|Hc]; [by rewrite !get_insert_eq|].
    rewrite !(get_insert_ne _ "createdAt") by done.
    destruct (decide (k = "id")) as [->|Hid]; [by rewrite !get_insert_eq|].
    by rewrite !get_insert_ne by done. }
  unfold togglePinned, toggleArchived. rewrite !length_map, !lookup_map, Hi. simpl.
  destruct (strict_eq_str (get idea "id") id); rewrite ?spread_empty;
    repeat split; eauto; eexists; (split; [reflexivity|]); apply Hframe.
Qed.

Lemma toggle_frame_witness :
  [Samples.note_a; Samples.note_b] !! 0%nat = Some Samples.note_a ∧
  "text" ≠ "isPinned" ∧ "text" ≠ "isArchived" ∧
  (∃ idea', togglePinned "a" [Samples.note_a; Samples.note_b] !! 0%nat = Some idea' ∧
     get idea' "text" = get Samples.note_a "text") ∧
  (∃ idea', toggleArchived "a" [Samples.note_a; Samples.note_b] !! 0%nat = Some idea' ∧
     get idea' "text" = get Samples.note_a "text") ∧
  length (togglePinned "a" [Samples.note_a; Samples.note_b])
    = length [Samples.note_a; Samples.note_b] ∧
  length (toggleArchived "a" [Samples.note_a; Samples.note_b])
    = length [Samples.note_a; Samples.note_b].
Proof.
  assert (H1 : [Samples.note_a; Samples.note_b] !! 0%nat = Some Samples.note_a)
    by reflexivity.
  assert (H2 : "text" ≠ "isPinned") by discriminate.
  assert (H3 : "text" ≠ "isArchived") by discriminate.
  exact (conj H1 (conj H2 (conj H3 (toggle_frame _ "a" _ _ _ H1 H2 H3)))).
Defined.

(** X4.  Toggling the same flag twice does not undo the first toggle: after
    two [togglePinned] calls a matching entry has its [isPinned] back (as a
    boolean) and is never archived; after two [toggleArchived] calls it has
    its [isArchived] back and is never pinned. *)
Theorem toggle_twice (prev : list obj) (id : string) (i : nat) (idea : obj) :
  prev !! i = Some idea →
  get idea "id" = VStr id →
  (∃ idea', togglePinned id (togglePinned id prev) !! i = Some idea' ∧
     get idea' "isPinned" = VBool (to_boolean (get idea "isPinned")) ∧
     get idea' "isArchived" = VBool false) ∧
  (∃ idea', toggleArchived id (toggleArchived id prev) !! i = Some idea' ∧
     get idea' "isArchived" = VBool (to_boolean (get idea "isArchived")) ∧
     get idea' "isPinned" = VBool false).
Proof.
  intros Hi Hid. split.
  - destruct (togglePinned_matched prev id i idea Hi Hid)
      as (idea1 & Hl1 & Hp1 & Ha1 & Hid1 & _).
    rewrite Hid in Hid1.
    destruct (togglePinned_matched _ id i idea1 Hl1 Hid1)
      as (idea2 & Hl2 & Hp2 & Ha2 & _).
    exists idea2. split; [done|]. rewrite Hp2, Ha2, Hp1, Ha1.
    unfold js_not. simpl. rewrite negb_involutive.
    by destruct (to_boolean (get idea "isPinned")).
  - destruct (toggleArchived_matched prev id i idea Hi Hid)
      as (idea1 & Hl1 & Ha1 & Hp1 & Hid1 & _).
    rewrite Hid in Hid1.
    destruct (toggleArchived_matched _ id i idea1 Hl1 Hid1)
      as (idea2 & Hl2 & Ha2 & Hp2 & _).
    exists idea2. split; [done|]. rewrite Hp2, Ha2, Hp1, Ha1.
    unfold js_not. simpl. rewrite negb_involutive.
    by destruct (to_boolean (get idea "isArchived")).
Qed.

Lemma sample_id_a : get Samples.note_a "id" = VStr "a".
Proof. unfold Samples.note_a, Samples.idea. by get_simpl. Qed.

Lemma toggle_twice_witness :
  [Samples.note_a; Samples.note_b] !! 0%nat = Some Samples.note_a ∧
  get Samples.note_a "id" = VStr "a" ∧
  (∃ idea', togglePinned "a" (togglePinned "a" [Samples.note_a; Samples.note_b]) !! 0%nat
            = Some idea' ∧
     get idea' "isPinned" = VBool (to_boolean (get Samples.note_a "isPinned")) ∧
     get idea' "isArchived" = VBool false) ∧
  (∃ idea', toggleArchived "a" (toggleArchived "a" [Samples.note_a; Samples.note_b]) !! 0%nat
            = Some idea' ∧
     get idea' "isArchived" = VBool (to_boolean (get Samples.note_a "isArchived")) ∧
     get idea' "isPinned" = VBool false).
Proof.
  assert (H1 : [Samples.note_a; Samples.note_b] !! 0%nat = Some Samples.note_a)
    by reflexivity.
  exact (conj H1 (conj sample_id_a (toggle_twice _ _ _ _ H1 sample_id_a))).
Defined.

(** X5.  Two updates of the same id in a row are one update with the merged
    record, the later keys winning; in particular an update repeated changes
    nothing more. *)
Theorem update_twice (prev : list obj) (id : string) (updates1 updates2 : obj) :
  updateIdea id updates2 (updateIdea id updates1 prev)
    = updateIdea id (updates2 ∪ updates1) prev ∧
  updateIdea id updates1 (updateIdea id updates1 prev) = updateIdea id updates1 prev.
Proof.
  assert (Hmerge : ∀ u1 u2,
    updateIdea id u2 (updateIdea id u1 prev) = updateIdea id (u2 ∪ u1) prev).
  { intros u1 u2. unfold updateIdea. rewrite List.map_map. apply List.map_ext.
    intros idea. destruct (strict_eq_str (get idea "id") id) eqn:Hid.
    - get_simpl. rewrite Hid. unfold spread. apply map_eq. intros k.
      destruct (decide (k = "createdAt")) as [->|Hc]; [by rewrite !lookup_insert_eq|].
      rewrite !(lookup_insert_ne _ "createdAt") by done.
      destruct (decide (k = "id")) as [->|Hi]; [by rewrite !lookup_insert_eq|].
      rewrite !(lookup_insert_ne _ "id") by done.
      rewrite <- (assoc_L (∪)). rewrite !lookup_union.
      rewrite !lookup_insert_ne by done. by rewrite (lookup_union u1 idea).
    - by rewrite Hid. }
  split; [apply Hmerge|]. rewrite Hmerge. by rewrite (idemp_L (∪)).
Qed.

Lemma removeIdea_elem prev id idea :
  idea ∈ removeIdea id prev ↔ idea ∈ prev ∧ get idea "id" ≠ VStr id.
Proof.
  unfold removeIdea. rewrite !list_elem_of_In, filter_In, negb_true_iff.
  by rewrite strict_eq_str_false.
Qed.

(** X6.  [removeIdea] drops every entry with the given id, duplicates
    included, and nothing else: what is left are the other entries in their
    order.  Removing again changes nothing, and removals commute. *)
Theorem removeIdea_removes_all (prev : list obj) (id : string) :
  (∀ idea, idea ∈ removeIdea id prev ↔ idea ∈ prev ∧ get idea "id" ≠ VStr id) ∧
  sublist (removeIdea id prev) prev ∧
(VStr id ∉ ids (removeIdea id prev)) ∧
  removeIdea id (removeIdea id prev) = removeIdea id prev ∧
  (∀ id', removeIdea id (removeIdea id' prev) = removeIdea id' (removeIdea id prev)).
Proof.
  split; [intros idea; apply removeIdea_elem|]. split; [|split; [|split]].
  - unfold removeIdea. induction prev as [|idea l IH]; simpl; [constructor|].
    destruct (negb _); by constructor.
  - unfold ids. rewrite list_elem_of_fmap. intros (idea & Hid & Hin).
    apply removeIdea_elem in Hin as [_ Hne]. by apply Hne.
  - apply filter_unchanged. intros idea Hin.
    apply removeIdea_elem in Hin as [_ Hne]. apply negb_true_iff.
    by apply strict_eq_str_false.
  - intros id'. unfold removeIdea. induction prev as [|idea l IH]; simpl; [done|].
    destruct (strict_eq_str (get idea "id") id) eqn:H1,
             (strict_eq_str (get idea "id") id') eqn:H2;
      simpl; rewrite ?H1, ?H2; simpl; by rewrite IH.
Qed.

(** X7.  Removing the id [addIdea] has just given takes the new idea out
    again and leaves the collection as it was before the add, when no earlier
    idea has that id. *)
Theorem remove_undoes_add (prev : list obj) (now_id now_created : Z)
    (suffix : string) (input : obj) :
  VStr (new_id now_id suffix) ∉ ids prev →
  removeIdea (new_id now_id suffix) (addIdea now_id now_created suffix input prev) = prev.
Proof.
  intros Hfresh. unfold removeIdea, addIdea. rewrite List.filter_app. simpl.
  get_simpl. unfold new_id. simpl. rewrite bool_decide_eq_true_2 by done. simpl.
  rewrite app_nil_r. apply filter_unchanged. intros idea Hin.
  apply negb_true_iff, strict_eq_str_false. intros Hid. apply Hfresh.
  unfold ids. apply list_elem_of_fmap. by exists idea.
Qed.

Lemma remove_undoes_add_witness :
(VStr (new_id 1700 "9f3a") ∉ ids [Samples.note_a; Samples.note_b]) ∧
  removeIdea (new_id 1700 "9f3a")
    (addIdea 1700 1701 "9f3a" Samples.note_c [Samples.note_a; Samples.note_b])
    = [Samples.note_a; Samples.note_b].
Proof.
  assert (H1 : VStr (new_id 1700 "9f3a") ∉ ids [Samples.note_a; Samples.note_b]).
  { rewrite sample_ids. intros Hin.
    apply elem_of_cons in Hin as [Hin|Hin];
      [|apply list_elem_of_singleton in Hin]; vm_compute in Hin; discriminate. }
  exact (conj H1 (remove_undoes_add _ 1700 1701 "9f3a" Samples.note_c H1)).
Defined.

End CollectionFacts.

(** ** Further properties of hydration *)

Section LoadFacts.
Import JS IdeasContext.
Implicit Types (v : value) (idea : obj) (loaded : list obj).

Lemma normalize_is_Some v : is_Some (normalize v) ↔ readable v = true.
Proof.
  unfold normalize, readable.
  destruct v; simpl; split; intros H; first [done | by eexists | by destruct H].
Qed.

Lemma nullish_not_nullish v : is_nullish (nullish v (VBool false)) = false.
Proof. by destruct v. Qed.

Lemma normalize_flags_set v idea : normalize v = Some idea → flags_set idea = true.
Proof.
  unfold normalize. destruct (read v "isPinned") as [p|]; [|done].
  destruct (read v "isArchived") as [a|]; [|done]. simpl.
  intros [= <-]. unfold flags_set. get_simpl. by rewrite !nullish_not_nullish.
Qed.

(** X8.  Hydration is all or nothing.  [loadIdeas] hands a collection to
    [setIdeas] exactly when the read returned a text, the text parses to an
    array, the provider is still mounted and no element of the array is
    [null]; one [null] element discards the whole stored collection.  What it
    hands over has one idea per element. *)
Theorem loadIdeas_succeeds_iff (JSON_parse : string → option value)
    (data : option string) (mounted : bool) :
  (is_Some (loadIdeas JSON_parse data mounted) ↔
     ∃ d l, data = Some d ∧ JSON_parse d = Some (VArr l) ∧ mounted = true ∧
            Forall (λ v, readable v = true) l) ∧
  (∀ d l loaded, data = Some d → JSON_parse d = Some (VArr l) →
     loadIdeas JSON_parse data mounted = Some loaded → length loaded = length l).
Proof.
  split.
  - unfold loadIdeas. destruct data as [d|]; simpl.
    2: { split; [by intros [? ?] | by intros (? & ? & ? & _)]. }
    destruct (JSON_parse d) as [parsed|] eqn:Hp; simpl.
    2: { split; [by intros [? ?] | intros (? & ? & [= <-] & ? & _); congruence]. }
    assert (Hother : (∀ l, parsed ≠ VArr l) →
      is_Some (@None (list obj)) ↔
        ∃ d0 l, Some d = Some d0 ∧ JSON_parse d0 = Some (VArr l) ∧ mounted = true ∧
                Forall (λ v, readable v = true) l).
    { intros Hne. split; [by intros [? ?]|].
      intros (d0 & l & [= <-] & Hl & _). rewrite Hp in Hl.
      injection Hl as ->. by destruct (Hne l). }
    destruct parsed as [| | | | |l|]; try (apply Hother; discriminate).
    destruct mounted.
    + rewrite mapM_is_Some. split.
      * intros Hall. exists d, l. repeat split; try done.
        eapply Forall_impl; [exact Hall|]. intros v. apply normalize_is_Some.
      * intros (d0 & l0 & [= <-] & Hl & _ & Hall). rewrite Hp in Hl.
        injection Hl as <-. eapply Forall_impl; [exact Hall|].
        intros v. apply normalize_is_Some.
    + split; [by intros [? ?] | by intros (? & ? & _ & _ & ? & _)].
  - intros d l loaded -> Hp. unfold loadIdeas. simpl. rewrite Hp. simpl.
    destruct mounted; [|done]. intros Hm. apply mapM_Some in Hm.
    symmetry. by eapply Forall2_length.
Qed.

Lemma normalize_keeps_flagged idea :
  flags_set idea = true → normalize (VObj idea) = Some idea.
Proof.
  unfold flags_set, normalize, get. simpl. rewrite spread_empty.
  rewrite andb_true_iff, !negb_true_iff. unfold get. intros [Hp Ha]. f_equal.
  destruct (idea !! "isPinned") as [p|] eqn:Ep; [|done].
  destruct (idea !! "isArchived") as [a|] eqn:Ea; [|done]. simpl in *.
  rewrite (insert_id idea "isPinned") by (rewrite Ep; by destruct p).
  apply insert_id. rewrite Ea. by destruct a.
Qed.

(** X9.  The migration changes an entry exactly when one of the two flags is
    missing, [null] or [undefined]. *)
Theorem normalize_fixed_point (idea : obj) :
  normalize (VObj idea) = Some idea ↔ flags_set idea = true.
Proof. split; [apply normalize_flags_set | apply normalize_keeps_flagged]. Qed.

(** X10.  Whatever hydration loads has both flags set, and loading it again
    gives it back unchanged. *)
Theorem hydration_idempotent (JSON_parse : string → option value)
    (data : option string) (mounted : bool) (loaded : list obj) :
  loadIdeas JSON_parse data mounted = Some loaded →
  Forall (λ idea, flags_set idea = true) loaded ∧
  ∀ JSON_parse' data', JSON_parse' data' = Some (VArr (VObj <$> loaded)) →
    loadIdeas JSON_parse' (Some data') true = Some loaded.
Proof.
  intros Hload.
  assert (Hflags : Forall (λ idea, flags_set idea = true) loaded).
  { unfold loadIdeas in Hload. destruct data as [d|]; [|done]. simpl in Hload.
    destruct (JSON_parse d) as [[| | | | |l|]|]; try done. simpl in Hload.
    destruct mounted; [|done]. apply mapM_Some in Hload.
    induction Hload as [|v idea l k Hv _ IH]; constructor; [|done].
    by eapply normalize_flags_set. }
  split; [done|].
  assert (Hre : mapM normalize (VObj <$> loaded) = Some loaded).
  { apply mapM_Some. clear Hload.
    induction Hflags as [|idea l Hidea _ IH]; simpl; constructor; [|done].
    by apply normalize_keeps_flagged. }
  intros JSON_parse' data' Hp. by rewrite (loadIdeas_entries _ _ _ Hp).
Qed.

Lemma hydration_idempotent_witness :
  ∃ loaded,
    loadIdeas (Samples.parses_to (VArr (VObj <$> [Samples.legacy_entry])))
      (Some "stored") true = Some loaded ∧
    Forall (λ idea, flags_set idea = true) loaded ∧
    ∀ JSON_parse' data', JSON_parse' data' = Some (VArr (VObj <$> loaded)) →
      loadIdeas JSON_parse' (Some data') true = Some loaded.
Proof.
  destruct (normalize_entries [Samples.legacy_entry]) as (loaded & Hm & _).
  assert (H1 : loadIdeas (Samples.parses_to (VArr (VObj <$> [Samples.legacy_entry])))
                 (Some "stored") true = Some loaded).
  { by rewrite (loadIdeas_entries _ _ [Samples.legacy_entry]). }
  exact (ex_intro _ loaded (conj H1 (hydration_idempotent _ _ _ _ H1))).
Defined.

End LoadFacts.

(** ** Further properties of persistence *)

Section AutosaveFacts.
Import JS IdeasContext.
Context (JSON_parse : string → option value) (JSON_stringify : list obj → string).
Implicit Types (s : store) (e : event) (es : list event) (o : op).

Local Abbreviation step' := (step JSON_parse JSON_stringify).
Local Abbreviation run' := (run JSON_parse JSON_stringify).

Lemma run_snoc s es e : run' s (es ++ [e]) = step' (run' s es) e.
Proof. unfold run. apply foldl_snoc. Qed.

Lemma step_cases s e :
  step' s e = Store (ideas s) (hasHydrated s) (isMounted s) (loadPending s) (writes s) ∨
  step' s e = Store (ideas s) (hasHydrated s) false (loadPending s) (writes s) ∨
  (loadPending s = true ∧
   step' s e = Store (ideas s) true (isMounted s) false (writes s)) ∨
  (isMounted s = true ∧ hasHydrated s = false ∧ ∃ l,
   step' s e = Store l false true (loadPending s) (writes s)) ∨
  (isMounted s = true ∧ ∃ l pending,
   step' s e = Store l true true pending
                 (writes s ++ [(STORAGE_KEY, JSON_stringify l)])).
Proof.
  destruct s as [xs hyd mnt pend ws].
  destruct e as [o|data| |o os]; simpl; unfold setIdeas, saveIdeas; simpl.
  - destruct mnt; simpl; [|by left]. destruct hyd; simpl.
    + do 4 right. split; [done|]. by eexists _, _.
    + do 3 right. left. eauto.
  - destruct pend; simpl; [|by left].
    destruct (loadIdeas JSON_parse data mnt) as [l|]; simpl.
    + destruct mnt; simpl; [|by right; right; left].
      do 4 right. split; [done|]. by eexists _, _.
    + right; right; left. done.
  - right; left. done.
  - destruct mnt; simpl; [|by left]. destruct hyd; simpl.
    + do 4 right. split; [done|]. by eexists _, _.
    + do 3 right. left. eauto.
Qed.

(** X11.  In every state the provider can reach, every write went to the
    storage key, and the latest write, if there is one, holds the collection
    as it is in memory now. *)
Theorem storage_mirrors_memory (es : list event) :
  let s := run' mount es in
  Forall (λ w, w.1 = STORAGE_KEY) (writes s) ∧
  (writes s = [] ∨ last (writes s) = Some (STORAGE_KEY, JSON_stringify (ideas s))).
Proof.
  simpl.
  assert (Hinv : (hasHydrated (run' mount es) = false → writes (run' mount es) = []) ∧
    Forall (λ w, w.1 = STORAGE_KEY) (writes (run' mount es)) ∧
    (writes (run' mount es) = [] ∨
     last (writes (run' mount es))
       = Some (STORAGE_KEY, JSON_stringify (ideas (run' mount es))))).
  { induction es as [|e es IH] using rev_ind.
    - split; [done|]. split; [constructor | by left].
    - rewrite run_snoc. destruct IH as (Hquiet & Hkey & Hlast).
      set (s := run' mount es) in *.
      destruct (step_cases s e)
        as [-> | [-> | [[_ ->] | [(_ & Hh & l & ->) | (_ & l & pending & ->)]]]];
        simpl.
      + done.
      + done.
      + done.
      + split; [auto|]. split; [done|]. left. auto.
      + split; [done|].
        split; [apply Forall_app; split; [done | by repeat constructor]|].
        right. apply last_snoc. }
  destruct Hinv as (_ & ? & ?). done.
Qed.

(** X12.  The log of writes only grows and the hydrated flag never drops,
    from any state and over any events; once the load is over, a second load
    result changes nothing. *)
Theorem writes_append_only (s : store) (es : list event) :
  writes s `prefix_of` writes (run' s es) ∧
  (hasHydrated s = true → hasHydrated (run' s es) = true) ∧
  (loadPending s = false → ∀ data, step' s (LoadDone data) = s).
Proof.
  split; [|split].
  - induction es as [|e es IH] using rev_ind; [done|].
    rewrite run_snoc. etransitivity; [exact IH|].
    destruct (step_cases (run' s es) e)
      as [-> | [-> | [[_ ->] | [(_ & _ & l & ->) | (_ & l & pending & ->)]]]]; simpl;
      first [done | by apply prefix_app_r].
  - intros Hh. induction es as [|e es IH] using rev_ind; [done|].
    rewrite run_snoc.
    destruct (step_cases (run' s es) e)
      as [-> | [-> | [[_ ->] | [(_ & Hn & _) | (_ & l & pending & ->)]]]]; simpl;
      first [done | congruence].
  - intros Hp data. destruct s as [xs hyd mnt pend ws]. simpl in *. by subst pend.
Qed.

Lemma calls_before_load (ops : list op) (l : list obj) :
  run' (Store l false true true []) (Call <$> ops)
    = Store (run_ops ops l) false true true [].
Proof.
  revert l. unfold run, run_ops.
  induction ops as [|o ops IH]; intros l; simpl; [done|].
  unfold setIdeas, saveIdeas. simpl. apply IH.
Qed.

(** X13.  Calls made while the load is in flight are applied in memory and
    not written.  When the load then brings a stored collection, that
    collection replaces what the calls built and is the first thing written;
    when it brings nothing, what the calls built stays in memory, still
    unwritten. *)
Theorem calls_before_hydration (ops : list op) (data : option string) :
  let early := run' mount (Call <$> ops) in
  let hydrated := step' early (LoadDone data) in
  ideas early = run_ops ops [] ∧ writes early = [] ∧
  hasHydrated hydrated = true ∧
  match loadIdeas JSON_parse data true with
  | Some normalized =>
      ideas hydrated = normalized ∧
      writes hydrated = [(STORAGE_KEY, JSON_stringify normalized)]
  | None => ideas hydrated = run_ops ops [] ∧ writes hydrated = []
  end.
Proof.
  simpl. unfold mount. rewrite calls_before_load. simpl. repeat split.
  - by destruct (loadIdeas JSON_parse data true).
  - by destruct (loadIdeas JSON_parse data true).
Qed.

(** X14.  After the provider is unmounted nothing reaches the collection or
    storage any more: calls and a late load result leave both as they
    were. *)
Theorem unmounted_is_frozen (s : store) (es : list event) :
  isMounted s = false →
  isMounted (run' s es) = false ∧
  ideas (run' s es) = ideas s ∧
  writes (run' s es) = writes s.
Proof.
  intros Hm. induction es as [|e es IH] using rev_ind; [done|].
  rewrite run_snoc. destruct IH as (Hm' & Hi & Hw).
  destruct (step_cases (run' s es) e)
    as [-> | [-> | [[_ ->] | [(Hn & _) | (Hn & _)]]]]; simpl;
    first [done | congruence].
Qed.

End AutosaveFacts.

Section AutosaveSamples.
Import JS IdeasContext.

Lemma unmounted_is_frozen_witness :
  isMounted Samples.unmounted_store = false ∧
  isMounted (run (Samples.parses_to (VArr [])) Samples.stringify_ids
               Samples.unmounted_store Samples.session) = false ∧
  ideas (run (Samples.parses_to (VArr [])) Samples.stringify_ids
           Samples.unmounted_store Samples.session)
    = ideas Samples.unmounted_store ∧
  writes (run (Samples.parses_to (VArr [])) Samples.stringify_ids
            Samples.unmounted_store Samples.session)
    = writes Samples.unmounted_store.
Proof.
  assert (H1 : isMounted Samples.unmounted_store = false) by reflexivity.
  exact (conj H1
    (unmounted_is_frozen (Samples.parses_to (VArr [])) Samples.stringify_ids
       _ Samples.session H1)).
Defined.

End AutosaveSamples.

(** ** Further properties of the inbox projection *)

Section ViewFacts.
Import JS Explore.
Implicit Types (item : obj) (ideas filtered visible : list obj).

Lemma elem_of_filter_bool {A} (f : A → bool) (l : list A) (a : A) :
  a ∈ List.filter f l ↔ a ∈ l ∧ f a = true.
Proof. by rewrite !list_elem_of_In, filter_In. Qed.

Lemma filter_split_perm {A} (f : A → bool) (l : list A) :
  Permutation l (List.filter f l ++ List.filter (λ a, negb (f a)) l).
Proof.
  induction l as [|a l IH]; simpl; [done|].
  destruct (f a); simpl; [by constructor|].
  rewrite <- Permutation_middle. by constructor.
Qed.

Lemma filter_sublist {A} (f : A → bool) (l : list A) : sublist (List.filter f l) l.
Proof.
  induction l as [|a l IH]; simpl; [constructor|]. destruct (f a); by constructor.
Qed.

Lemma archive_step_elem showArchived ideas item :
  item ∈ archive_step showArchived ideas ↔ item ∈ ideas ∧ in_view showArchived item.
Proof.
  unfold archive_step, in_view. destruct showArchived;
    rewrite elem_of_filter_bool, ?negb_true_iff; done.
Qed.

Lemma category_step_elem selectedCategory filtered item :
  item ∈ category_step selectedCategory filtered ↔
    item ∈ filtered ∧ in_category selectedCategory item.
Proof.
  unfold category_step, in_category. destruct selectedCategory as [|c]; [tauto|].
  by rewrite elem_of_filter_bool, strict_eq_str_true.
Qed.

Lemma search_step_elem searchQuery filtered :
  Forall has_text filtered →
  ∃ kept, search_step searchQuery filtered = Ok kept ∧ sublist kept filtered ∧
    ∀ item, item ∈ kept ↔ item ∈ filtered ∧ matches_query searchQuery item.
Proof.
  intros Htext. unfold matches_query. destruct (all_ws searchQuery) eqn:Hq.
  - exists filtered. split; [by apply search_step_blank|]. split; [done|].
    intros item. split; [auto | by intros [? _]].
  - set (keep := λ item, match get item "text" with
                         | VStr text => includes (replace_ws (toLowerCase text))
                                          (normalizedQuery searchQuery)
                         | _ => false
                         end).
    exists (List.filter keep filtered). split; [|split; [apply filter_sublist|]].
    + unfold search_step. rewrite bool_decide_eq_false_2.
      * apply filter_with_total. eapply Forall_impl; [exact Htext|].
        intros item [text Ht]. unfold search_match, keep. by rewrite Ht.
      * rewrite trim_empty, Hq. discriminate.
    + intros item. rewrite elem_of_filter_bool. unfold keep.
      split; intros [Hin Hk]; (split; [done|]).
      * right. destruct (get item "text") as [| | | |text| |]; try done.
        exists text. split; [done|]. by apply includes_spec.
      * destruct Hk as [?|(text & -> & Hsub)]; [done|]. by apply includes_spec.
Qed.

(** X15.  With well-typed entries the visible list is in the chosen order
    and holds exactly the ideas that pass all three filters: the archive
    view, the search and the category.  It never shows an entry twice that
    the collection has once. *)
Theorem visibleIdeas_exact (ideas : list obj) (showArchived : bool)
    (searchQuery : string) (selectedCategory : category_filter)
    (sortOrder : sort_order) :
  Forall has_text ideas →
  Forall has_createdAt ideas →
  ∃ visible,
    visibleIdeas ideas showArchived searchQuery selectedCategory sortOrder = Ok visible ∧
    StronglySorted (in_order sortOrder) visible ∧
    visible ⊆+ ideas ∧
    ∀ item, item ∈ visible ↔
      item ∈ ideas ∧ in_view showArchived item ∧
      matches_query searchQuery item ∧ in_category selectedCategory item.
Proof.
  intros Htext Hcreated. unfold visibleIdeas.
  assert (Harch : ∀ P, Forall P ideas → Forall P (archive_step showArchived ideas)).
  { intros P. unfold archive_step. destruct showArchived; apply Forall_filter_entry. }
  assert (Hcat : ∀ P l, Forall P l → Forall P (category_step selectedCategory l)).
  { intros P l. unfold category_step. destruct selectedCategory; [done|].
    apply Forall_filter_entry. }
  destruct (search_step_elem searchQuery (archive_step showArchived ideas))
    as (kept & -> & Hsub & Hkept); [by apply Harch|]. simpl.
  assert (Hkept_created : Forall has_createdAt kept).
  { apply Forall_forall. intros item Hin. apply Hkept in Hin as [Hin _].
    apply archive_step_elem in Hin as [Hin _].
    by apply (proj1 (Forall_forall _ _) Hcreated). }
  rewrite sort_step_checked by (by apply Hcat).
  eexists. split; [reflexivity|]. split; [|split].
  - eapply StronglySorted_weaken; [| apply sort_sorted ].
    + intros a b. apply compare_ideas_in_order.
    + intros a b. unfold compare_ideas. destruct sortOrder; lia.
    + intros a b c. unfold compare_ideas. destruct sortOrder; lia.
  - rewrite <- sort_perm.
    transitivity kept;
      [unfold category_step; destruct selectedCategory;
         [done | apply sublist_submseteq, filter_sublist]|].
    transitivity (archive_step showArchived ideas); [by apply sublist_submseteq|].
    unfold archive_step. destruct showArchived; apply sublist_submseteq, filter_sublist.
  - intros item. rewrite <- (sort_perm _ _).
    rewrite category_step_elem, Hkept, archive_step_elem. tauto.
Qed.

Lemma sample_typed :
  Forall has_text [Samples.note_a; Samples.note_b; Samples.note_c] ∧
  Forall has_createdAt [Samples.note_a; Samples.note_b; Samples.note_c].
Proof.
  destruct sample_createdAt as (Ha & Hb & Hc).
  split; repeat apply Forall_cons_2; try apply Forall_nil_2;
    try (red; eauto);
    eexists; unfold Samples.note_a, Samples.note_b, Samples.note_c, Samples.idea;
    by get_simpl.
Qed.

Lemma visibleIdeas_exact_witness :
  Forall has_text [Samples.note_a; Samples.note_b; Samples.note_c] ∧
  Forall has_createdAt [Samples.note_a; Samples.note_b; Samples.note_c] ∧
  ∃ visible,
    visibleIdeas [Samples.note_a; Samples.note_b; Samples.note_c] false "MILK"
      (Only Random) newest = Ok visible ∧
    StronglySorted (in_order newest) visible ∧
    visible ⊆+ [Samples.note_a; Samples.note_b; Samples.note_c] ∧
    ∀ item, item ∈ visible ↔
      item ∈ [Samples.note_a; Samples.note_b; Samples.note_c] ∧ in_view false item ∧
      matches_query "MILK" item ∧ in_category (Only Random) item.
Proof.
  exact (conj (proj1 sample_typed) (conj (proj2 sample_typed)
    (visibleIdeas_exact _ false "MILK" (Only Random) newest
       (proj1 sample_typed) (proj2 sample_typed)))).
Defined.

(** X16.  With no search and no category selected, the archive view and the
    inbox view split the collection between them: every idea is shown in
    exactly one of the two, the archived ones in the first. *)
Theorem views_partition (ideas : list obj) (searchQuery : string)
    (sortOrder : sort_order) :
  all_ws searchQuery = true →
  Forall has_createdAt ideas →
  ∃ archived inbox,
    visibleIdeas ideas true searchQuery All sortOrder = Ok archived ∧
    visibleIdeas ideas false searchQuery All sortOrder = Ok inbox ∧
    Permutation ideas (archived ++ inbox) ∧
    Forall (λ item, get item "isArchived" = VBool true) archived ∧
    Forall (λ item, get item "isArchived" ≠ VBool true) inbox.
Proof.
  intros Hq Hcreated. unfold visibleIdeas.
  rewrite !search_step_blank by done. simpl.
  rewrite !sort_step_checked by (by apply Forall_filter_entry).
  eexists _, _. split; [reflexivity|]. split; [reflexivity|].
  assert (Htrue : ∀ item, strict_eq_true (get item "isArchived") = true ↔
                          get item "isArchived" = VBool true).
  { intros item. destruct (get item "isArchived") as [| |[]| | | |]; simpl;
      split; congruence. }
  split; [|split].
  - rewrite <- !sort_perm. apply filter_split_perm.
  - apply Forall_forall. intros item. rewrite <- (sort_perm _ _).
    rewrite elem_of_filter_bool. intros [_ H]. by apply Htrue.
  - apply Forall_forall. intros item. rewrite <- (sort_perm _ _).
    rewrite elem_of_filter_bool, negb_true_iff. intros [_ H] Heq.
    apply Htrue in Heq. congruence.
Qed.

Lemma views_partition_witness :
  all_ws "  " = true ∧
  Forall has_createdAt [Samples.note_a; Samples.note_b; Samples.note_c] ∧
  ∃ archived inbox,
    visibleIdeas [Samples.note_a; Samples.note_b; Samples.note_c] true "  " All oldest
      = Ok archived ∧
    visibleIdeas [Samples.note_a; Samples.note_b; Samples.note_c] false "  " All oldest
      = Ok inbox ∧
    Permutation [Samples.note_a; Samples.note_b; Samples.note_c] (archived ++ inbox) ∧
    Forall (λ item, get item "isArchived" = VBool true) archived ∧
    Forall (λ item, get item "isArchived" ≠ VBool true) inbox.
Proof.
  assert (H1 : all_ws "  " = true) by reflexivity.
  exact (conj H1 (conj (proj2 sample_typed)
    (views_partition _ "  " oldest H1 (proj2 sample_typed)))).
Defined.

Lemma filter_with_throws (cb : obj → outcome bool) filtered item :
  (∀ x, cb x = Throws ∨ ∃ b, cb x = Ok b) →
  item ∈ filtered → cb item = Throws →
  filter_with cb filtered = Throws.
Proof.
  intros Hcb Hin Hthrows. induction filtered as [|x l IH]; [by inversion Hin|].
  simpl. destruct (Hcb x) as [->|[b Hb]]; [done|]. rewrite Hb. simpl.
  rewrite IH; [done|]. apply elem_of_cons in Hin as [->|Hin]; [congruence | done].
Qed.

(** X17.  The search does not guard the type of [text]: with a query that is
    not blank, one entry of the selected view whose [text] is not a string,
    such as a stored entry without the field, makes the whole projection
    throw, whatever the other entries and the other filters are. *)
Theorem search_throws_without_text (ideas : list obj) (showArchived : bool)
    (searchQuery : string) (selectedCategory : category_filter)
    (sortOrder : sort_order) (item : obj) :
  all_ws searchQuery = false →
  item ∈ ideas →
  in_view showArchived item →
  (∀ text, get item "text" ≠ VStr text) →
  visibleIdeas ideas showArchived searchQuery selectedCategory sortOrder = Throws.
Proof.
  intros Hq Hin Hview Htext. unfold visibleIdeas, search_step.
  rewrite bool_decide_eq_false_2 by (rewrite trim_empty, Hq; discriminate).
  rewrite (filter_with_throws _ _ item); [done| | |].
  - intros x. unfold search_match. destruct (get x "text"); eauto.
  - by apply archive_step_elem.
  - unfold search_match.
    destruct (get item "text") as [| | | |text| |] eqn:Ht; try done.
    by destruct (Htext text).
Qed.

Lemma search_throws_without_text_witness :
  all_ws "milk" = false ∧
  Samples.null_flag_entry ∈ [Samples.note_b; Samples.null_flag_entry] ∧
  in_view false Samples.null_flag_entry ∧
  (∀ text, get Samples.null_flag_entry "text" ≠ VStr text) ∧
  visibleIdeas [Samples.note_b; Samples.null_flag_entry] false "milk" All newest = Throws.
Proof.
  assert (H1 : all_ws "milk" = false) by reflexivity.
  assert (H2 : Samples.null_flag_entry ∈ [Samples.note_b; Samples.null_flag_entry]).
  { apply elem_of_cons. right. apply list_elem_of_singleton. reflexivity. }
  assert (H3 : in_view false Samples.null_flag_entry).
  { unfold in_view, Samples.null_flag_entry. get_simpl. reflexivity. }
  assert (H4 : ∀ text, get Samples.null_flag_entry "text" ≠ VStr text).
  { intros text. unfold Samples.null_flag_entry. get_simpl. discriminate. }
  exact (conj H1 (conj H2 (conj H3 (conj H4
    (search_throws_without_text _ false "milk" All newest _ H1 H2 H3 H4))))).
Defined.

(** X18.  The pin split is a partition that keeps the order: in the inbox
    view the pinned section holds exactly the entries whose [isPinned] is
    [true], the regular section the others, both in the order of the visible
    list; in the archive view the pinned section is empty and the regular
    section is the whole list. *)
Theorem pin_split_partition (visible : list obj) (showArchived : bool) :
  Permutation visible ((pin_split visible showArchived).1 ++ (pin_split visible showArchived).2) ∧
  sublist (pin_split visible showArchived).1 visible ∧
  sublist (pin_split visible showArchived).2 visible ∧
  (showArchived = true → pin_split visible showArchived = ([], visible)) ∧
  (showArchived = false → ∀ item,
     (item ∈ (pin_split visible showArchived).1 ↔
        item ∈ visible ∧ get item "isPinned" = VBool true) ∧
     (item ∈ (pin_split visible showArchived).2 ↔
        item ∈ visible ∧ get item "isPinned" ≠ VBool true)).
Proof.
  assert (Htrue : ∀ item, strict_eq_true (get item "isPinned") = true ↔
                          get item "isPinned" = VBool true).
  { intros item. destruct (get item "isPinned") as [| |[]| | | |]; simpl;
      split; congruence. }
  unfold pin_split. destruct showArchived; simpl.
  - repeat split; try done. apply sublist_nil_l.
  - split; [apply filter_split_perm|]. split; [apply filter_sublist|].
    split; [apply filter_sublist|]. split; [done|]. intros _ item.
    rewrite !elem_of_filter_bool, negb_true_iff, <- Htrue.
    split; [done|]. by rewrite not_true_iff_false.
Qed.

End ViewFacts.

(** ** Trimming *)

Section TrimFacts.
Import JS.
Implicit Types (s : string) (c : ascii).

Lemma trimStart_clean s : starts_clean (trimStart s) = true.
Proof.
  induction s as [|c s IH]; simpl; [done|].
  destruct (is_ws c) eqn:Hc; [done|]. simpl. by rewrite Hc.
Qed.

Lemma trimEnd_starts_clean s : starts_clean s = true → starts_clean (trimEnd s) = true.
Proof.
  destruct s as [|c s]; simpl; [done|]. intros Hc.
  destruct (trimEnd s); simpl; [|done]. apply negb_true_iff in Hc.
  rewrite Hc. simpl. by rewrite Hc.
Qed.

Lemma trimEnd_clean s : ends_clean (trimEnd s) = true.
Proof.
  induction s as [|c s IH]; simpl; [done|].
  destruct (trimEnd s) as [|c' r] eqn:Ht; [|done].
  destruct (is_ws c) eqn:Hc; simpl; [done | by rewrite Hc].
Qed.

Lemma trimStart_fixed s : starts_clean s = true → trimStart s = s.
Proof.
  destruct s as [|c s]; simpl; [done|]. intros Hc.
  apply negb_true_iff in Hc. by rewrite Hc.
Qed.

Lemma trimEnd_fixed s : ends_clean s = true → trimEnd s = s.
Proof.
  induction s as [|c s IH]; [done|]. destruct s as [|c' r].
  - simpl. intros Hc. apply negb_true_iff in Hc. by rewrite Hc.
  - intros Hs. change (ends_clean (String c' r) = true) in Hs.
    change (trimEnd (String c (String c' r)))
      with (match trimEnd (String c' r) with
            | EmptyString => if is_ws c then EmptyString else String c EmptyString
            | r' => String c r'
            end).
    by rewrite (IH Hs).
Qed.

Lemma trim_clean s : starts_clean (trim s) = true ∧ ends_clean (trim s) = true.
Proof.
  unfold trim. split; [apply trimEnd_starts_clean, trimStart_clean | apply trimEnd_clean].
Qed.

Lemma trim_fixed s : trim s = s ↔ starts_clean s = true ∧ ends_clean s = true.
Proof.
  split.
  - intros <-. apply trim_clean.
  - intros [Hs He]. unfold trim. by rewrite (trimStart_fixed s Hs), trimEnd_fixed.
Qed.

Lemma trim_length_0 s : (0 <? String.length (trim s))%nat = negb (all_ws s).
Proof.
  destruct (all_ws s) eqn:Hq.
  - apply trim_empty in Hq. by rewrite Hq.
  - destruct (trim s) eqn:Ht; [|done].
    apply trim_empty in Ht. congruence.
Qed.

Lemma append_cons c s t : String c s +:+ t = String c (s +:+ t).
Proof. reflexivity. Qed.

Lemma trimStart_split s : ∃ pre, s = pre +:+ trimStart s ∧ all_ws pre = true.
Proof.
  induction s as [|c s (pre & IH & Hpre)]; simpl; [by exists ""|].
  destruct (is_ws c) eqn:Hc; [|by exists ""].
  exists (String c pre). rewrite append_cons. simpl. rewrite Hc, Hpre.
  split; [by f_equal | done].
Qed.

Lemma trimEnd_split s : ∃ post, s = trimEnd s +:+ post ∧ all_ws post = true.
Proof.
  induction s as [|c s (post & IH & Hpost)]; simpl; [by exists ""|].
  destruct (trimEnd s) as [|c' r] eqn:Ht.
  - change ("" +:+ post) with post in IH. destruct (is_ws c) eqn:Hc.
    + exists (String c post). change ("" +:+ String c post) with (String c post).
      simpl. rewrite Hc, Hpost. split; [by f_equal | done].
    + exists post. rewrite append_cons. split; [by f_equal | done].
  - exists post. rewrite append_cons. split; [by f_equal | done].
Qed.

(** X19.  [trim] cuts a run of whitespace off each end and nothing else: the
    input is whitespace, then the result, then whitespace, and the result has
    no whitespace at either end.  So trimming twice is trimming once, and the
    strings [trim] leaves as they are are those clean at both ends. *)
Theorem trim_correct (s : string) :
  (∃ pre post, s = pre +:+ trim s +:+ post ∧ all_ws pre = true ∧ all_ws post = true) ∧
  starts_clean (trim s) = true ∧
  ends_clean (trim s) = true ∧
  trim (trim s) = trim s ∧
  (trim s = s ↔ starts_clean s = true ∧ ends_clean s = true).
Proof.
  destruct (trim_clean s) as [Hs He].
  split; [|split; [done|]; split; [done|];
           split; [by apply trim_fixed | apply trim_fixed]].
  unfold trim. destruct (trimStart_split s) as (pre & Hpre & Hws).
  destruct (trimEnd_split (trimStart s)) as (post & Hpost & Hws').
  exists pre, post. split; [|done]. by rewrite <- Hpost.
Qed.

End TrimFacts.

(** ** The capture screen and the note screen *)

Section ScreenFacts.
Import JS IdeasContext Explore Capture NoteDetail.
Implicit Types (idea : obj) (ideas prev : list obj) (id : string).

(** X20.  The capture screen never adds a blank note.  [submitIdea] calls
    nothing when the text is empty or whitespace only; otherwise the idea
    [addIdea] appends has the trimmed text, which is not empty, the selected
    category and both flags false.  The [isOutside] switch it passes along is
    stored by the earlier revision of [addIdea] and dropped by the current
    one. *)
Theorem submitIdea_never_blank (ideaText : string) (selectedCategory : IdeaCategory)
    (isOutside : bool) :
  (submitIdea ideaText selectedCategory isOutside = None ↔ all_ws ideaText = true) ∧
  ∀ input now_id now_created suffix prev,
    submitIdea ideaText selectedCategory isOutside = Some input →
    (∃ newIdea,
       addIdea now_id now_created suffix input prev = (prev ++ [newIdea])%list ∧
       get newIdea "text" = VStr (trim ideaText) ∧
       trim ideaText ≠ "" ∧
       get newIdea "category" = VStr (category_name selectedCategory) ∧
       get newIdea "isPinned" = VBool false ∧
       get newIdea "isArchived" = VBool false ∧
       newIdea !! "isOutside" = None) ∧
    (∃ newIdea,
       Legacy.addIdea now_id now_created suffix input prev = (prev ++ [newIdea])%list ∧
       get newIdea "text" = VStr (trim ideaText) ∧
       get newIdea "category" = VStr (category_name selectedCategory) ∧
       get newIdea "isOutside" = VBool isOutside).
Proof.
  unfold submitIdea, canSubmit. rewrite trim_length_0, negb_involutive.
  destruct (all_ws ideaText) eqn:Hq; split; try done.
  intros input n1 n2 sfx prev [= <-]. split.
  - unfold addIdea. eexists. split; [reflexivity|]. get_simpl.
    split; [done|]. split; [rewrite trim_empty, Hq; discriminate|].
    split; [done|]. split; [done|]. split; [done|].
    by rewrite !lookup_insert_ne by discriminate.
  - unfold Legacy.addIdea. eexists. split; [reflexivity|]. by get_simpl.
Qed.

Lemma find_Some {A} (cb : A → bool) (l : list A) (a : A) :
  find cb l = Some a → a ∈ l ∧ cb a = true.
Proof.
  induction l as [|x l IH]; simpl; [done|]. destruct (cb x) eqn:Hx.
  - intros [= <-]. split; [by left | done].
  - intros H. destruct (IH H). split; [by right | done].
Qed.

Lemma find_is_Some {A} (cb : A → bool) (l : list A) (a : A) :
  a ∈ l → cb a = true → is_Some (find cb l).
Proof.
  induction l as [|x l IH]; simpl; [by intros H; inversion H|].
  intros Hin Ha. destruct (cb x) eqn:Hx; [by eexists|].
  apply elem_of_cons in Hin as [->|Hin]; [congruence | by apply IH].
Qed.

(** X21.  The note screen opens an idea exactly when the route names a
    non-empty id that the collection has; the idea it opens carries that id.
    An empty id, a missing parameter and an empty parameter list open
    nothing, so an idea whose id is the empty string cannot be opened. *)
Theorem find_idea_correct (p : route_param) (ideas : list obj) :
  (∀ idea, find_idea (normalize_id p) ideas = Some idea →
     ∃ id, normalize_id p = Some id ∧ id ≠ "" ∧ idea ∈ ideas ∧ get idea "id" = VStr id) ∧
  (∀ id, normalize_id p = Some id → id ≠ "" → VStr id ∈ ids ideas →
     is_Some (find_idea (normalize_id p) ideas)) ∧
  find_idea (normalize_id (PString "")) ideas = None ∧
  find_idea (normalize_id PUndefined) ideas = None ∧
  find_idea (normalize_id (PArray [])) ideas = None.
Proof.
  split; [|split; [|done]].
  - intros idea. unfold find_idea. destruct (normalize_id p) as [id|]; [|done].
    case_bool_decide as Hid; [done|]. intros Hf.
    apply find_Some in Hf as [Hin Hm]. exists id. repeat split; try done.
    by apply strict_eq_str_true.
  - intros id -> Hid Hin. unfold find_idea. rewrite bool_decide_eq_false_2 by done.
    unfold ids in Hin. apply list_elem_of_fmap in Hin as (idea & Heq & Hin).
    apply (find_is_Some _ _ idea); [done|]. by apply strict_eq_str_true.
Qed.

Lemma find_updateIdea id updates ideas :
  find (λ i, strict_eq_str (get i "id") id) (updateIdea id updates ideas) =
    (λ idea, <["createdAt" := get idea "createdAt"]>
             (<["id" := get idea "id"]> (spread (spread ∅ idea) updates)))
    <$> find (λ i, strict_eq_str (get i "id") id) ideas.
Proof.
  induction ideas as [|idea l IH]; simpl; [done|].
  destruct (strict_eq_str (get idea "id") id) eqn:Hid.
  - rewrite (get_insert_ne _ "createdAt") by discriminate.
    by rewrite get_insert_eq, Hid.
  - by rewrite Hid.
Qed.

(** X22.  Saving an edit stores the trimmed draft and nothing else.  The save
    button makes a call only for an idea that is open, with a draft that is
    not blank and differs from the original; after that call the idea found
    under the same id has the trimmed draft as its text and every other field
    as before. *)
Theorem save_updates_text (id : string) (ideas : list obj)
    (draftText originalText : string) (o : op) :
  save (Some id) ideas draftText originalText = Some o →
  all_ws draftText = false ∧
  trim draftText ≠ originalText ∧
  writes_flag o = false ∧
  ∃ idea idea',
    find_idea (Some id) ideas = Some idea ∧
    find_idea (Some id) (apply_op o ideas) = Some idea' ∧
    get idea' "text" = VStr (trim draftText) ∧
    ∀ k, k ≠ "text" → get idea' k = get idea k.
Proof.
  unfold save, canSave, isDirty. destruct (find_idea (Some id) ideas) as [idea|] eqn:Hf;
    [|done].
  rewrite trim_length_0. case_bool_decide as Hd; simpl; [done|].
  destruct (all_ws draftText) eqn:Hq; simpl; [done|]. intros [= <-].
  split; [done|]. split; [done|]. split; [by vm_compute|].
  exists idea. eexists. split; [done|]. simpl.
  unfold find_idea in *. case_bool_decide; [done|].
  rewrite find_updateIdea, Hf. simpl. split; [reflexivity|]. split.
  - get_simpl. rewrite get_spread. by rewrite lookup_insert_eq.
  - intros k Hk.
    destruct (decide (k = "createdAt")) as [->|Hc]; [by rewrite !get_insert_eq|].
    rewrite !(get_insert_ne _ "createdAt") by done.
    destruct (decide (k = "id")) as [->|Hi]; [by rewrite !get_insert_eq|].
    rewrite !(get_insert_ne _ "id") by done.
    rewrite get_spread, spread_empty. by rewrite lookup_insert_ne, lookup_empty.
Qed.

Lemma save_updates_text_witness :
  save (Some "a") [Samples.note_a; Samples.note_b] " Ship v2 " "Ship v1"
    = Some (UpdateIdea "a" (<["text" := VStr "Ship v2"]> ∅)) ∧
  all_ws " Ship v2 " = false ∧
  trim " Ship v2 " ≠ "Ship v1" ∧
  writes_flag (UpdateIdea "a" (<["text" := VStr "Ship v2"]> ∅)) = false ∧
  ∃ idea idea',
    find_idea (Some "a") [Samples.note_a; Samples.note_b] = Some idea ∧
    find_idea (Some "a")
      (apply_op (UpdateIdea "a" (<["text" := VStr "Ship v2"]> ∅))
         [Samples.note_a; Samples.note_b]) = Some idea' ∧
    get idea' "text" = VStr (trim " Ship v2 ") ∧
    ∀ k, k ≠ "text" → get idea' k = get idea k.
Proof.
  assert (H1 : save (Some "a") [Samples.note_a; Samples.note_b] " Ship v2 " "Ship v1"
                 = Some (UpdateIdea "a" (<["text" := VStr "Ship v2"]> ∅))).
  { unfold save, find_idea. simpl. by rewrite sample_id_a. }
  exact (conj H1 (save_updates_text _ _ _ _ _ H1)).
Defined.

Lemma trimStart_pad pre t : all_ws pre = true → trimStart (pre +:+ t) = trimStart t.
Proof.
  induction pre as [|c pre IH]; [done|]. rewrite append_cons. simpl.
  intros [Hc Hpre]%andb_true_iff. rewrite Hc. by apply IH.
Qed.

Lemma trimEnd_pad t post : all_ws post = true → trimEnd (t +:+ post) = trimEnd t.
Proof.
  intros Hpost. induction t as [|c t IH].
  - by apply trimEnd_empty.
  - rewrite append_cons. simpl. by rewrite IH.
Qed.

Lemma trimStart_app t post :
  all_ws t = false → trimStart (t +:+ post) = trimStart t +:+ post.
Proof.
  induction t as [|c t IH]; [done|]. rewrite append_cons. simpl.
  destruct (is_ws c); simpl; [apply IH | done].
Qed.

(** Whitespace around a string does not change what [trim] makes of it. *)
Lemma trim_pad pre t post :
  all_ws pre = true → all_ws post = true → trim (pre +:+ t +:+ post) = trim t.
Proof.
  intros Hpre Hpost. unfold trim. rewrite trimStart_pad by done.
  destruct (all_ws t) eqn:Ht.
  - assert (Hall : all_ws (t +:+ post) = true).
    { clear -Ht Hpost. induction t as [|c t IH]; [done|].
      rewrite append_cons. simpl in *.
      apply andb_true_iff in Ht as [-> Ht]. by apply IH. }
    rewrite (proj2 (trimEnd_empty _)) by (by rewrite trimStart_all_ws).
    symmetry. apply trimEnd_empty. by rewrite trimStart_all_ws.
  - rewrite trimStart_app by done. by apply trimEnd_pad.
Qed.

(** X23.  The dirty check of the editor compares the trimmed draft with the
    original as stored.  For an original without whitespace at its ends the
    draft is clean exactly when it is the original with whitespace around
    it; for an original that has whitespace at an end every draft is dirty,
    the untouched one too. *)
Theorem isDirty_correct (draftText originalText : string) :
  (starts_clean originalText && ends_clean originalText = true →
     (isDirty draftText originalText = false ↔
        ∃ pre post, draftText = pre +:+ originalText +:+ post ∧
                    all_ws pre = true ∧ all_ws post = true)) ∧
  (starts_clean originalText && ends_clean originalText = false →
     isDirty draftText originalText = true).
Proof.
  unfold isDirty. rewrite negb_false_iff, negb_true_iff, bool_decide_eq_true,
    bool_decide_eq_false. split.
  - intros [Hs He]%andb_true_iff. split.
    + intros <-. destruct (trimStart_split draftText) as (pre & Hpre & Hws).
      destruct (trimEnd_split (trimStart draftText)) as (post & Hpost & Hws').
      exists pre, post. split; [|done]. unfold trim. by rewrite <- Hpost.
    + intros (pre & post & -> & Hpre & Hpost). rewrite trim_pad by done.
      by apply trim_fixed.
  - intros Hdirty Heq. subst originalText.
    destruct (trim_clean draftText) as [Hs He]. by rewrite Hs, He in Hdirty.
Qed.

End ScreenFacts.

(** ** The dropdown menus *)

Section MenuFacts.
Import Explore.
Open Scope Z_scope.

Ltac menu_cases :=
  repeat match goal with
         | |- context [(?a <? ?b)] =>
             lazymatch a with context [(_ <? _)] => fail | _ => idtac end;
             lazymatch b with context [(_ <? _)] => fail | _ => idtac end;
             destruct (Z.ltb_spec a b)
         end;
  cbn [fst snd]; repeat split; intros; lia.

(** X24.  A menu is never placed above or left of the 16-point margin.  When
    it is narrow enough for the window it ends before the right margin, which
    is always so for the width both menus are given; when it is short enough
    it ends before the bottom margin or, opened upwards, above its anchor.
    An anchor with room below gets the menu right under it, and an anchor
    inside the margins gets it at its own left edge. *)
Theorem calculateMenuPosition_bounds (windowWidth windowHeight : Z)
    (anchorRect : AnchorRect) (menuWidth menuHeight offset : Z) :
  let pos := calculateMenuPosition windowWidth windowHeight anchorRect
               menuWidth menuHeight offset in
  let top := pos.1 in
  let left := pos.2 in
  padding ≤ top ∧ padding ≤ left ∧
  (menuWidth + 2 * padding ≤ windowWidth → left + menuWidth ≤ windowWidth - padding) ∧
  (menuWidth = menu_width windowWidth → left + menuWidth ≤ windowWidth - padding) ∧
  (menuHeight + 2 * padding ≤ windowHeight →
     top + menuHeight ≤ Z.max (windowHeight - padding) (y anchorRect - offset)) ∧
  (padding ≤ y anchorRect + height anchorRect + offset →
   y anchorRect + height anchorRect + offset + menuHeight ≤ windowHeight - padding →
     top = y anchorRect + height anchorRect + offset) ∧
  (padding ≤ x anchorRect → x anchorRect + menuWidth ≤ windowWidth - padding →
     left = x anchorRect).
Proof.
  destruct anchorRect as [ax ay aw ah].
  unfold calculateMenuPosition, menu_width, padding.
  cbn [x y width height]. cbv zeta. menu_cases.
Qed.

End MenuFacts.

(** ** Notes of the earlier revision *)

Section LegacyFacts.
Import JS IdeasContext Explore.
Implicit Types (entry idea : obj) (entries loaded : list obj).

Lemma filter_none {A} (f : A → bool) (l : list A) :
  (∀ a, a ∈ l → f a = false) → List.filter f l = [].
Proof.
  induction l as [|a l IH]; intros Hf; simpl; [done|].
  rewrite Hf by left. apply IH. intros b Hb. apply Hf. by right.
Qed.

(** X25.  Notes stored by the earlier revision, which have neither flag, are
    all loaded, keep their [isOutside] value, and land in the regular section
    of the inbox: none is archived and none is pinned.  Every entry that
    revision's [addIdea] appends has this shape. *)
Theorem legacy_notes_land_in_inbox (JSON_parse : string → option value)
    (data : string) (entries : list obj) :
  Forall Legacy.unflagged entries →
  JSON_parse data = Some (VArr (VObj <$> entries)) →
  (∃ loaded, loadIdeas JSON_parse (Some data) true = Some loaded ∧
     length loaded = length entries ∧
     (∀ i entry, entries !! i = Some entry →
        ∃ idea, loaded !! i = Some idea ∧ get idea "isOutside" = get entry "isOutside") ∧
     archive_step false loaded = loaded ∧
     archive_step true loaded = [] ∧
     pin_split loaded false = ([], loaded)) ∧
  (∀ now_id now_created suffix input,
     Forall Legacy.unflagged (Legacy.addIdea now_id now_created suffix input entries)).
Proof.
  intros Hshape Hparse. split.
  - rewrite (loadIdeas_entries _ _ _ Hparse).
    destruct (normalize_entries entries) as (loaded & Hm & Hlen & Hl).
    exists loaded. split; [done|]. split; [done|].
    assert (Hflags : ∀ idea, idea ∈ loaded →
              get idea "isPinned" = VBool false ∧ get idea "isArchived" = VBool false).
    { intros idea Hin. apply list_elem_of_lookup in Hin as [i Hi].
      destruct (lookup_lt_is_Some_2 entries i) as [entry He].
      { rewrite <- Hlen. by eapply lookup_lt_Some. }
      rewrite (Hl i entry He) in Hi. injection Hi as <-.
      destruct (proj1 (Forall_lookup _ _) Hshape i entry He) as [Hp Ha].
      get_simpl. by rewrite !nullish_absent. }
    split; [|split; [|split]].
    + intros i entry He. eexists. split; [by apply Hl|]. by get_simpl.
    + unfold archive_step. apply filter_unchanged. intros idea Hin.
      destruct (Hflags idea Hin) as [_ ->]. done.
    + unfold archive_step. apply filter_none. intros idea Hin.
      destruct (Hflags idea Hin) as [_ ->]. done.
    + unfold pin_split. f_equal.
      * apply filter_none. intros idea Hin. by destruct (Hflags idea Hin) as [-> _].
      * apply filter_unchanged. intros idea Hin.
        by destruct (Hflags idea Hin) as [-> _].
  - intros n1 n2 sfx input. unfold Legacy.addIdea. apply Forall_app. split; [done|].
    apply Forall_singleton. split; by rewrite !lookup_insert_ne by discriminate.
Qed.

Lemma legacy_notes_land_in_inbox_witness :
  Forall Legacy.unflagged [Samples.legacy_entry] ∧
  Samples.parses_to (VArr (VObj <$> [Samples.legacy_entry])) "stored"
    = Some (VArr (VObj <$> [Samples.legacy_entry])) ∧
  (∃ loaded,
     loadIdeas (Samples.parses_to (VArr (VObj <$> [Samples.legacy_entry])))
       (Some "stored") true = Some loaded ∧
     length loaded = length [Samples.legacy_entry] ∧
     (∀ i entry, [Samples.legacy_entry] !! i = Some entry →
        ∃ idea, loaded !! i = Some idea ∧ get idea "isOutside" = get entry "isOutside") ∧
     archive_step false loaded = loaded ∧
     archive_step true loaded = [] ∧
     pin_split loaded false = ([], loaded)) ∧
  (∀ now_id now_created suffix input,
     Forall Legacy.unflagged
       (Legacy.addIdea now_id now_created suffix input [Samples.legacy_entry])).
Proof.
  assert (H1 : Forall Legacy.unflagged [Samples.legacy_entry]).
  { apply Forall_singleton. unfold Samples.legacy_entry.
    split; by rewrite !lookup_insert_ne by discriminate. }
  assert (H2 : Samples.parses_to (VArr (VObj <$> [Samples.legacy_entry])) "stored"
                 = Some (VArr (VObj <$> [Samples.legacy_entry]))) by reflexivity.
  exact (conj H1 (conj H2 (legacy_notes_land_in_inbox _ "stored" _ H1 H2))).
Defined.

End LegacyFacts.
